(** * Rockside API client (src/src/api.ts): a shallow embedding

    The client is one class, [RocksideApi], around [fetch], and two
    module-level helpers, [buf2hex] and [hex2buf].  The embedding has three
    layers:

    - the parts of the JavaScript runtime that the source calls
      ([substring], [slice], [Number.prototype.toString], [parseInt],
      typed-array stores, truthiness, property reads, [JSON.stringify]);
    - the hex codec;
    - the class: construction, the shared request builder [send], and each
      method as a computation that may await [fetch].

    Strings are [string]; a character stands for the UTF-16 code unit with
    the same number, so the model covers strings over U+0000..U+00FF.
    Numbers are modelled by their integer value ([Z]): an integer stands
    for the number that holds it (itself up to 2^53 in magnitude, see
    [JS.nearest_double] beyond).  Fractions and NaN are outside the model:
    the language leaves the digits of a fraction in a radix other than 10
    to the implementation. *)

From Stdlib Require Import ZArith NArith Lia List Bool.
From Stdlib.Strings Require Import Ascii String Byte.
From stdpp Require Import base option list strings gmap.

Local Open Scope string_scope.

(** ** The JavaScript runtime, as far as the source uses it *)

Module JS.

(** [s.length] *)
Definition len (s : string) : nat := String.length s.

(** The characters of [s] from index [n] on. *)
Fixpoint sdrop (n : nat) (s : string) : string :=
  match n, s with
  | O, _ => s
  | S n', String _ s' => sdrop n' s'
  | S _, EmptyString => EmptyString
  end.

(** The first [n] characters of [s]. *)
Fixpoint stake (n : nat) (s : string) : string :=
  match n, s with
  | S n', String c s' => String c (stake n' s')
  | _, _ => EmptyString
  end.

(** [s.substring(start)]: indices are clamped to the length. *)
Definition substring_from (s : string) (start : nat) : string :=
  sdrop start s.

(** [s.substring(start, end)]: both indices are clamped to the length and
    swapped when [start > end]. *)
Definition substring (s : string) (start end_ : nat) : string :=
  let from := Nat.min start end_ in
  let to := Nat.max start end_ in
  stake (to - from) (sdrop from s).

(** [s.slice(-k)] for [k > 0]: the start is [max (length - k) 0]. *)
Definition slice_last (s : string) (k : nat) : string :=
  sdrop (len s - k) s.

(** [parts.join('')] *)
Definition join_empty (parts : list string) : string :=
  fold_right String.append EmptyString parts.

(** *** Digits in a radix *)

(** The digit characters of [Number.prototype.toString(radix)]. *)
Definition digits36 : string := "0123456789abcdefghijklmnopqrstuvwxyz".

Definition digit_char (d : Z) : ascii :=
  match String.get (Z.to_nat d) digits36 with
  | Some c => c
  | None => "0"%char
  end.

(** The value of a character as a digit, for [parseInt]: decimal digits,
    then letters of either case from 10 on. *)
Definition digit_value (c : ascii) : option Z :=
  let n := Z.of_nat (nat_of_ascii c) in
  if (48 <=? n)%Z && (n <=? 57)%Z then Some (n - 48)%Z
  else if (97 <=? n)%Z && (n <=? 122)%Z then Some (n - 87)%Z
  else if (65 <=? n)%Z && (n <=? 90)%Z then Some (n - 55)%Z
  else None.

(** The digits of a positive integer, most significant first, written in
    front of [acc]. *)
Fixpoint digits_of (fuel : nat) (radix n : Z) (acc : string) : string :=
  match fuel with
  | O => acc
  | S fuel' =>
      if (n <=? 0)%Z then acc
      else digits_of fuel' radix (n / radix)%Z (String (digit_char (n mod radix)%Z) acc)
  end.

(** The digits of an integer [x] in a radix [2 <= radix <= 36]: a minus
    sign for negative numbers, no leading zeros, ["0"] for zero.  This is
    [x.toString(radix)] for an integer that a number holds exactly and the
    radix 16 (the one the source passes), and [String(x)] for a BigInt in
    the radix 10; [Number_toString10] is [String(x)] for a number.  An
    integer has at most [Z.log2 x + 1] digits in any radix, which bounds
    the recursion. *)
Definition Number_toString (x radix : Z) : string :=
  let digits n := digits_of (S (Z.to_nat (Z.log2 n))) radix n EmptyString in
  if (x <? 0)%Z then String "-"%char (digits (- x)%Z)
  else if (x =? 0)%Z then "0"
  else digits x.

(** *** Numbers in decimal *)

(** The number for a non-negative integer, as the integer it holds: the
    integer itself when it has at most 53 bits, else the nearest integer
    with 53 significant bits, the even one of two that are equally near;
    [None] when that is past the largest number (the number is then
    [Infinity]). *)
Definition nearest_double (n : Z) : option Z :=
  let b := Z.log2 n in
  if (b <=? 52)%Z then Some n
  else
    let e := (b - 52)%Z in
    let q := (n / 2 ^ e)%Z in
    let r := (n mod 2 ^ e)%Z in
    let half := (2 ^ (e - 1))%Z in
    let q' := if (half <? r)%Z || ((r =? half)%Z && Z.odd q) then (q + 1)%Z else q in
    let d := (q' * 2 ^ e)%Z in
    if (2 ^ 1024 <=? d)%Z then None else Some d.

(** [c] is read as the number [d]. *)
Definition reads_as (d c : Z) : bool :=
  match nearest_double c with
  | Some d' => (d' =? d)%Z
  | None => false
  end.

(** The count of decimal digits of a non-negative integer. *)
Definition decimal_length (n : Z) : nat := String.length (Number_toString n 10).

(** The integer with the fewest significant decimal digits that is read
    as [d], a number with [n] decimal digits: with [k] digits the two
    candidates are the multiples of [10^(n-k)] around [d]; of two that
    fit, the nearer one, and the one with the even last digit when they
    are equally near. *)
Fixpoint shortest_decimal (fuel k : nat) (d : Z) (n : nat) : Z :=
  match fuel with
  | O => d
  | S fuel' =>
      let scale := (10 ^ Z.of_nat (n - k))%Z in
      let lo := (d / scale * scale)%Z in
      let hi := (lo + scale)%Z in
      match reads_as d lo, reads_as d hi with
      | true, true =>
          if (d - lo <? hi - d)%Z then lo
          else if (hi - d <? d - lo)%Z then hi
          else if Z.even (d / scale) then lo else hi
      | true, false => lo
      | false, true => hi
      | false, false => shortest_decimal fuel' (S k) d n
      end
  end.

Fixpoint strip_trailing_zeros (s : string) : string :=
  match s with
  | String c s' =>
      match strip_trailing_zeros s' with
      | EmptyString => if Ascii.eqb c "0"%char then EmptyString else String c EmptyString
      | rest => String c rest
      end
  | EmptyString => EmptyString
  end.

(** Whether the number for [x] is finite. *)
Definition is_finite (x : Z) : bool :=
  match nearest_double (Z.abs x) with
  | Some _ => true
  | None => false
  end.

(** [String(x)] and [x.toString()] for the number for an integer [x]:
    the shortest digits that are read as the same number, followed by
    zeros below 10^21 and in the exponent form from there on;
    [Infinity] past the largest number. *)
Definition Number_toString10 (x : Z) : string :=
  let magnitude :=
    match nearest_double (Z.abs x) with
    | None => "Infinity"
    | Some d =>
        let c := shortest_decimal (decimal_length d) 1 d (decimal_length d) in
        let digits := Number_toString c 10 in
        if (c <? 10 ^ 21)%Z then digits
        else
          match strip_trailing_zeros digits with
          | String first EmptyString =>
              String first ("e+" ++ Number_toString (Z.of_nat (String.length digits) - 1) 10)
          | String first rest =>
              String first
                ("." ++ rest ++ "e+"
                 ++ Number_toString (Z.of_nat (String.length digits) - 1) 10)
          | EmptyString => digits
          end
    end in
  if (x <? 0)%Z then String "-"%char magnitude else magnitude.

(** *** parseInt *)

(** White space that [parseInt] skips, among the code units below 256:
    TAB, LF, VT, FF, CR, SP and NBSP. *)
Definition is_whitespace (c : ascii) : bool :=
  let n := Z.of_nat (nat_of_ascii c) in
  ((9 <=? n)%Z && (n <=? 13)%Z) || (n =? 32)%Z || (n =? 160)%Z.

Fixpoint trim_start (s : string) : string :=
  match s with
  | String c s' => if is_whitespace c then trim_start s' else s
  | EmptyString => EmptyString
  end.

(** The values of the longest prefix of [s] made of digits of the radix. *)
Fixpoint radix_prefix (radix : Z) (s : string) : list Z :=
  match s with
  | String c s' =>
      match digit_value c with
      | Some d => if (d <? radix)%Z then d :: radix_prefix radix s' else []
      | None => []
      end
  | EmptyString => []
  end.

Definition digits_value (radix : Z) (ds : list Z) : Z :=
  fold_left (fun acc d => (acc * radix + d)%Z) ds 0%Z.

(** [parseInt(s, radix)]; [None] is NaN.  Leading white space is skipped,
    one sign is read, the prefix [0x]/[0X] is dropped when the radix is 16
    (or 0, which then means 16), and the longest prefix of digits is read;
    no digit gives NaN.  The result is exact (the source reads at most two
    digits at a time; the rounding of long inputs is not modelled), and
    [-0] is [0]. *)
Definition parseInt (s : string) (radix : Z) : option Z :=
  let s1 := trim_start s in
  let '(sign, s2) :=
    match s1 with
    | String "-"%char r => ((-1)%Z, r)
    | String "+"%char r => (1%Z, r)
    | _ => (1%Z, s1)
    end in
  let has_prefix :=
    match s2 with
    | String "0"%char (String c _) => Ascii.eqb c "x"%char || Ascii.eqb c "X"%char
    | _ => false
    end in
  let strip := (radix =? 0)%Z || (radix =? 16)%Z in
  let r := if (radix =? 0)%Z then (if has_prefix then 16%Z else 10%Z) else radix in
  if (r <? 2)%Z || (36 <? r)%Z then None
  else
    let s3 := if strip && has_prefix then sdrop 2 s2 else s2 in
    match radix_prefix r s3 with
    | [] => None
    | ds => Some (sign * digits_value r ds)%Z
    end.

(** *** Uint8Array *)

(** The conversion applied by a store into a [Uint8Array]: NaN becomes 0,
    an integer is reduced modulo 256. *)
Definition ToUint8 (v : option Z) : byte :=
  match v with
  | None => x00
  | Some z =>
      match Byte.of_N (Z.to_N (z mod 256)) with
      | Some b => b
      | None => x00
      end
  end.

(** [new Uint8Array(length)]: [length] zero bytes. *)
Definition Uint8Array_new (length : nat) : list byte := replicate length x00.

(** [view[i] = v]: a store past the end is ignored, which is what
    [<[i:=_]>] does on lists. *)
Definition Uint8Array_store (view : list byte) (i : nat) (v : option Z) : list byte :=
  <[i := ToUint8 v]> view.

(** A byte read out of a [Uint8Array], as a number. *)
Definition byte_value (x : byte) : Z := Z.of_N (Byte.to_N x).

(** *** Values *)

#[local] Set Warnings "-register-all".

(** The values the client handles: what [JSON.parse] produces, the object
    literals the source builds, and the object a caller passes to
    [sendTransaction] (whose numeric fields may be BigInts).  [Num z] is
    the number for the integer [z].  An object is the list of its own
    properties in the order the runtime enumerates them (keys that are
    array indices first, ascending, then the others in creation order),
    with distinct keys. *)
Inductive Value : Type :=
| Undefined
| Null
| Bool (b : bool)
| Num (z : Z)
| BigInt (z : Z)
| Str (s : string)
| Arr (elems : list Value)
| Obj (props : list (string * Value)).

(** What can be thrown.  [Error m] is [new Error(m)]; [TypeError] is
    raised by the runtime (a property read on [null] or [undefined], a call
    of something that is no function, a BigInt given to [JSON.stringify]);
    the two others come from the environment: a body that is not JSON, a
    failed transport. *)
Inductive Exception : Type :=
| Error (message : string)
| TypeError
| SyntaxError (message : string)
| NetworkError (message : string).

(** A synchronous computation: a value, or an exception thrown. *)
Inductive Result (A : Type) : Type :=
| Ok (a : A)
| Raise (e : Exception).
Arguments Ok {A} a.
Arguments Raise {A} e.

#[export] Instance Result_ret : MRet Result := fun A a => Ok a.
#[export] Instance Result_bind : MBind Result := fun A B f m =>
  match m with
  | Ok a => f a
  | Raise e => Raise e
  end.

(** [!!v] *)
Definition ToBoolean (v : Value) : bool :=
  match v with
  | Undefined | Null => false
  | Bool b => b
  | Num z | BigInt z => negb (z =? 0)%Z
  | Str s => negb (String.eqb s EmptyString)
  | Arr _ | Obj _ => true
  end.

(** An optional string field ([token?: string]) as a value. *)
Definition of_optional (o : option string) : Value :=
  match o with
  | Some s => Str s
  | None => Undefined
  end.

Fixpoint own_property (props : list (string * Value)) (key : string) : Value :=
  match props with
  | (k, v) :: rest => if String.eqb k key then v else own_property rest key
  | [] => Undefined
  end.

(** [v[key]], for a [key] that is neither an index nor a property of a
    built-in prototype (every key the source reads is such a name): the own
    property of an object, [undefined] on any other value that has
    properties, and a [TypeError] on [null] and [undefined]. *)
Definition get (v : Value) (key : string) : Result Value :=
  match v with
  | Undefined | Null => Raise TypeError
  | Obj props => Ok (own_property props key)
  | _ => Ok Undefined
  end.

Definition join_with (sep : string) (parts : list string) : string :=
  String.concat sep parts.

(** Whether [String(v)] throws.  An object that has an own member
    [toString] has no function there (none of the values here is one), and
    the inherited [valueOf] gives the object back, so there is no way to a
    primitive; an array joins the strings of its elements other than
    [null] and [undefined]. *)
Fixpoint ToString_throws (v : Value) : bool :=
  match v with
  | Arr elems => existsb ToString_throws elems
  | Obj props => existsb (fun kv => String.eqb (fst kv) "toString") props
  | _ => false
  end.

(** [String(v)], for a [v] on which it does not throw. *)
Fixpoint ToString (v : Value) : string :=
  match v with
  | Undefined => "undefined"
  | Null => "null"
  | Bool true => "true"
  | Bool false => "false"
  | Num z => Number_toString10 z
  | BigInt z => Number_toString z 10
  | Str s => s
  | Arr elems =>
      join_with ","
        (map (fun e => match e with
                       | Undefined | Null => EmptyString
                       | _ => ToString e
                       end) elems)
  | Obj _ => "[object Object]"
  end.

(** What [throw new Error(v)] throws: an error whose message is
    [String(v)], empty when [v] is [undefined]; the [TypeError] of the
    conversion when that throws. *)
Definition Error_of (v : Value) : Exception :=
  match v with
  | Undefined => Error EmptyString
  | _ => if ToString_throws v then TypeError else Error (ToString v)
  end.

(** *** JSON.stringify *)

Definition dquote : string := String "034"%char EmptyString.

(** One code unit inside a JSON string literal. *)
Definition quote_char (c : ascii) : string :=
  let n := Z.of_nat (nat_of_ascii c) in
  if (n =? 8)%Z then "\b"
  else if (n =? 9)%Z then "\t"
  else if (n =? 10)%Z then "\n"
  else if (n =? 12)%Z then "\f"
  else if (n =? 13)%Z then "\r"
  else if (n =? 34)%Z then "\" ++ dquote
  else if (n =? 92)%Z then "\\"
  else if (n <? 32)%Z then "\u00" ++ slice_last ("00" ++ Number_toString n 16) 2
  else String c EmptyString.

Fixpoint quote_chars (s : string) : string :=
  match s with
  | String c s' => quote_char c ++ quote_chars s'
  | EmptyString => EmptyString
  end.

(** [QuoteJSONString] *)
Definition quote (s : string) : string := dquote ++ quote_chars s ++ dquote.

(** One member of a serialized object. *)
Definition member (key str : string) : string := quote key ++ ":" ++ str.

(** [JSON.stringify(v)]; [Ok None] is the result [undefined].  A number
    is written as [String] writes it, [null] when it is not finite.
    Inside an array [undefined] is written [null]; inside an object a
    property whose value is [undefined] is left out; a BigInt throws. *)
Fixpoint JSON_stringify (v : Value) : Result (option string) :=
  match v with
  | Undefined => Ok None
  | Null => Ok (Some "null")
  | Bool true => Ok (Some "true")
  | Bool false => Ok (Some "false")
  | Num z => Ok (Some (if is_finite z then Number_toString10 z else "null"))
  | BigInt _ => Raise TypeError
  | Str s => Ok (Some (quote s))
  | Arr elems =>
      let fix items (l : list Value) : Result (list string) :=
        match l with
        | [] => Ok []
        | e :: rest =>
            match JSON_stringify e with
            | Raise x => Raise x
            | Ok o =>
                match items rest with
                | Raise x => Raise x
                | Ok strs => Ok (default "null" o :: strs)
                end
            end
        end in
      match items elems with
      | Raise x => Raise x
      | Ok strs => Ok (Some ("[" ++ join_with "," strs ++ "]"))
      end
  | Obj props =>
      let fix members (l : list (string * Value)) : Result (list string) :=
        match l with
        | [] => Ok []
        | (k, e) :: rest =>
            match JSON_stringify e with
            | Raise x => Raise x
            | Ok o =>
                match members rest with
                | Raise x => Raise x
                | Ok strs =>
                    Ok (match o with
                        | Some str => member k str :: strs
                        | None => strs
                        end)
                end
            end
        end in
      match members props with
      | Raise x => Raise x
      | Ok strs => Ok (Some ("{" ++ join_with "," strs ++ "}"))
      end
  end.

End JS.

(** ** The hex codec *)

(** [x => ('00' + x.toString(16)).slice(-2)] *)
Definition hex_of_byte (x : byte) : string :=
  JS.slice_last ("00" ++ JS.Number_toString (JS.byte_value x) 16) 2.

(** [buf2hex]: ['0x' + Array.prototype.map.call(new Uint8Array(buffer), ...).join('')] *)
Definition buf2hex (buffer : list byte) : string :=
  "0x" ++ JS.join_empty (map hex_of_byte buffer).

(** The [for] loop of [hex2buf]: [i] advances by two while
    [i < noPrefix.length]; [fuel] bounds the number of iterations. *)
Fixpoint hex2buf_loop (fuel : nat) (noPrefix : string) (i : nat) (view : list byte)
  : list byte :=
  match fuel with
  | O => view
  | S fuel' =>
      if (i <? JS.len noPrefix)%nat then
        hex2buf_loop fuel' noPrefix (i + 2)
          (JS.Uint8Array_store view (i / 2)%nat
             (JS.parseInt (JS.substring noPrefix i (i + 2)) 16))
      else view
  end.

(** [hex2buf].  [noPrefix.length / 2] may be a fraction; [new Uint8Array]
    truncates it.  The loop runs at most once per character. *)
Definition hex2buf (s : string) : list byte :=
  let noPrefix := JS.substring_from s 2 in
  let length := (JS.len noPrefix / 2)%nat in
  let view := JS.Uint8Array_new length in
  hex2buf_loop (JS.len noPrefix) noPrefix 0 view.

Import JS.

(** ** Requests, responses and asynchronous computations *)

(** The arguments of one [fetch(url, {method, body, headers})]; [None] is
    the body [null]. *)
Record Request : Type := {
  req_url : string;
  req_method : string;
  req_body : option string;
  req_headers : gmap string string
}.

(** What the client reads of a [Response]: [resp.status], and the outcome
    of [await resp.json()], which throws when the body is not JSON. *)
Record Response : Type := {
  status : Z;
  json : Result Value
}.

(** An [async] function body: it returns, throws, or awaits one [fetch]
    and goes on with the response.  Nothing in the source catches, so a
    [fetch] that fails ends the computation (see [run]). *)
Inductive Async (A : Type) : Type :=
| Return (a : A)
| Throw (e : Exception)
| Fetch (req : Request) (k : Response -> Async A).
Arguments Return {A} a.
Arguments Throw {A} e.
Arguments Fetch {A} req k.

Fixpoint Async_bind {A B : Type} (f : A -> Async B) (m : Async A) : Async B :=
  match m with
  | Return a => f a
  | Throw e => Throw e
  | Fetch req k => Fetch req (fun resp => Async_bind f (k resp))
  end.

#[export] Instance Async_ret : MRet Async := fun A a => Return a.
#[export] Instance Async_mbind : MBind Async := fun A B f m => Async_bind f m.

(** A synchronous step inside an [async] function. *)
Definition sync {A : Type} (r : Result A) : Async A :=
  match r with
  | Ok a => Return a
  | Raise e => Throw e
  end.

(** [throw await m] *)
Definition throw_await {A : Type} (m : Async Exception) : Async A :=
  e ← m; Throw e.

(** The remote service and the transport: each request gets a response,
    or [fetch] rejects. *)
Definition Network : Type := Request -> Result Response.

(** The outcome of a computation against a network. *)
Fixpoint run {A : Type} (net : Network) (m : Async A) : Result A :=
  match m with
  | Return a => Ok a
  | Throw e => Raise e
  | Fetch req k =>
      match net req with
      | Ok resp => run net (k resp)
      | Raise e => Raise e
      end
  end.

(** The requests it sends on the way, in order. *)
Fixpoint sent {A : Type} (net : Network) (m : Async A) : list Request :=
  match m with
  | Return _ | Throw _ => []
  | Fetch req k =>
      req :: match net req with
             | Ok resp => sent net (k resp)
             | Raise _ => []
             end
  end.

(** Every request the computation can send, whatever the responses,
    satisfies [P]. *)
Fixpoint sends {A : Type} (P : Request -> Prop) (m : Async A) : Prop :=
  match m with
  | Return _ | Throw _ => True
  | Fetch req k => P req /\ forall resp, sends P (k resp)
  end.

(** ** The data of the API *)

(** [[3, 'ropsten'] | [1, 'mainnet']] *)
Inductive RocksideNetwork : Type := ropsten | mainnet.

(** [network[0]] *)
Definition network_id (n : RocksideNetwork) : Z :=
  match n with ropsten => 3 | mainnet => 1 end.

(** [network[1]] *)
Definition network_name (n : RocksideNetwork) : string :=
  match n with ropsten => "ropsten" | mainnet => "mainnet" end.

Record RocksideApiOpts : Type := {
  baseUrl : string;
  token : option string;
  apikey : option string;
  network : RocksideNetwork
}.

Record ExecuteTransaction : Type := {
  tx_relayer : string;
  tx_from : string;
  tx_to : string;
  tx_value : Z;
  tx_data : list byte;
  tx_gas : Z;
  tx_gasPrice : Z;
  tx_signature : string
}.

Record EncryptedAccount : Type := {
  username : string;
  iterations : Z;
  passwordHash : list byte;
  passwordDerivedKeyHash : list byte;
  encryptedEncryptionKey : list byte;
  encryptedEncryptionKeyIV : list byte
}.

Record EncryptedWallet : Type := {
  encryptedMnemonic : list byte;
  encryptedMnemonicIV : list byte
}.

(** The object [{ data, iv }] that [connectEncryptedAccount] returns. *)
Record EncryptionKey : Type := {
  key_data : list byte;
  key_iv : list byte
}.

(** ** The class *)

Record RocksideApi : Type := {
  opts : RocksideApiOpts;
  headers : gmap string string
}.

(** A header's value is a string: [opts.apikey] where it is truthy, and
    ['Bearer ' + opts.token] with whatever [opts.token] is. *)
Definition generateHeaders (o : RocksideApiOpts) : gmap string string :=
  if ToBoolean (of_optional (apikey o)) then
    {[ "apikey" := ToString (of_optional (apikey o)) ]}
  else
    {[ "Authorization" := "Bearer " ++ ToString (of_optional (token o)) ]}.

Definition authenticationChecks (o : RocksideApiOpts) : Result unit :=
  if ToBoolean (of_optional (apikey o)) && ToBoolean (of_optional (token o)) then
    Raise (Error "Both access token and api key provided. Only one needed.")
  else if negb (ToBoolean (of_optional (apikey o))) && negb (ToBoolean (of_optional (token o))) then
    Raise (Error "No authentication method provided: define apikey or token.")
  else Ok tt.

(** [new RocksideApi(opts)] *)
Definition constructor (o : RocksideApiOpts) : Result RocksideApi :=
  _ ← authenticationChecks o;
  let headers := generateHeaders o in
  Ok {| opts := o; headers := headers |}.

Definition extractError (resp : Response) : Async Exception :=
  json ← sync (json resp);
  error ← sync (get json "error");
  Throw (Error_of error).

(** The body is serialized before [fetch] is called, so a value that
    [JSON.stringify] refuses ends [send] without a request. *)
Definition send (this : RocksideApi) (route method : string) (body : Value)
  : Async Response :=
  let url := baseUrl (opts this) ++ route in
  body ← sync (if ToBoolean body then JSON_stringify body else Ok None);
  Fetch {| req_url := url; req_method := method; req_body := body;
           req_headers := headers this |} Return.

(** [hex2buf(v)] for a [v] read out of parsed JSON: [v.substring] is a
    function only when [v] is a string. *)
Definition hex2buf_of (v : Value) : Result (list byte) :=
  match v with
  | Str s => Ok (hex2buf s)
  | _ => Raise TypeError
  end.

Definition getIdentities (this : RocksideApi) : Async Value :=
  resp ← send this ("/ethereum/" ++ network_name (network (opts this)) ++ "/smartwallets")
           "GET" Null;
  if negb (status resp =? 200)%Z then throw_await (extractError resp)
  else
    json ← sync (json resp);
    Return json.

Definition createIdentity (this : RocksideApi) (forwarder account : string)
  : Async Value :=
  resp ← send this ("/ethereum/" ++ network_name (network (opts this)) ++ "/smartwallets")
           "POST" (Obj [("forwarder", Str forwarder); ("account", Str account)]);
  if negb (status resp =? 201)%Z then throw_await (extractError resp)
  else
    json ← sync (json resp);
    address ← sync (get json "address");
    transactionHash ← sync (get json "transaction_hash");
    Return (Obj [("address", address); ("transactionHash", transactionHash)]).

Definition getEOAs (this : RocksideApi) : Async Value :=
  resp ← send this "/ethereum/eoa" "GET" Null;
  if negb (status resp =? 200)%Z then throw_await (extractError resp)
  else sync (json resp).

Definition createEOA (this : RocksideApi) : Async Value :=
  resp ← send this "/ethereum/eoa" "POST" (Obj []);
  if negb (status resp =? 200)%Z then throw_await (extractError resp)
  else
    json ← sync (json resp);
    address ← sync (get json "address");
    Return (Obj [("address", address)]).

Definition signMessageWithEOA (this : RocksideApi) (eoa hash : string) : Async Value :=
  resp ← send this ("/ethereum/eoa/" ++ eoa ++ "/sign-message") "POST"
           (Obj [("message", Str hash)]);
  if negb (status resp =? 200)%Z then throw_await (extractError resp)
  else
    json ← sync (json resp);
    signed_message ← sync (get json "signed_message");
    Return (Obj [("signed_message", signed_message)]).

(** [tx] is the caller's object, passed on as it is; its type
    [TransactionOpts] only constrains its properties. *)
Definition sendTransaction (this : RocksideApi) (tx : Value) : Async Value :=
  resp ← send this ("/ethereum/" ++ network_name (network (opts this)) ++ "/transaction")
           "POST" tx;
  if negb (status resp =? 200)%Z then throw_await (extractError resp)
  else
    json ← sync (json resp);
    transaction_hash ← sync (get json "transaction_hash");
    tracking_id ← sync (get json "tracking_id");
    Return (Obj [("transaction_hash", transaction_hash); ("tracking_id", tracking_id)]).

(** The object literal that [createEncryptedAccount] sends. *)
Definition createEncryptedAccount_body (account : EncryptedAccount) : Value :=
  Obj [("username", Str (username account));
       ("password_hash", Str (buf2hex (passwordHash account)));
       ("encrypted_encryption_key", Str (buf2hex (encryptedEncryptionKey account)));
       ("encrypted_encryption_key_iv", Str (buf2hex (encryptedEncryptionKeyIV account)));
       ("iterations", Num (iterations account));
       ("password_derived_key_hash", Str (buf2hex (passwordDerivedKeyHash account)))].

Definition createEncryptedAccount (this : RocksideApi) (account : EncryptedAccount)
  : Async unit :=
  resp ← send this "/encryptedaccounts" "PUT" (createEncryptedAccount_body account);
  if negb (status resp =? 201)%Z && negb (status resp =? 409)%Z
  then throw_await (extractError resp)
  else Return tt.

Definition connectEncryptedAccount (this : RocksideApi) (username : string)
    (passwordHash : list byte) : Async EncryptionKey :=
  resp ← send this "/encryptedaccounts/connect" "POST"
           (Obj [("username", Str username); ("password_hash", Str (buf2hex passwordHash))]);
  if negb (status resp =? 200)%Z then throw_await (extractError resp)
  else
    json ← sync (json resp);
    data ← sync (get json "encrypted_encryption_key" ≫= hex2buf_of);
    iv ← sync (get json "encryption_key_iv" ≫= hex2buf_of);
    Return {| key_data := data; key_iv := iv |}.

(** The object literal that [createEncryptedWallet] sends. *)
Definition createEncryptedWallet_body (account : EncryptedAccount) (wallet : EncryptedWallet)
  : Value :=
  Obj [("username", Str (username account));
       ("password_hash", Str (buf2hex (passwordHash account)));
       ("encrypted_mnemonic", Str (buf2hex (encryptedMnemonic wallet)));
       ("encrypted_mnemonic_iv", Str (buf2hex (encryptedMnemonicIV wallet)))].

Definition createEncryptedWallet (this : RocksideApi) (account : EncryptedAccount)
    (wallet : EncryptedWallet) : Async unit :=
  resp ← send this "/encryptedaccounts/wallets" "PUT"
           (createEncryptedWallet_body account wallet);
  if negb (status resp =? 201)%Z then throw_await (extractError resp)
  else Return tt.

(** [jsonWallet => ({ encryptedMnemonic: ..., encryptedMnemonicIV: ... })] *)
Definition decode_wallet (jsonWallet : Value) : Result EncryptedWallet :=
  encryptedMnemonic ← get jsonWallet "encrypted_mnemonic" ≫= hex2buf_of;
  encryptedMnemonicIV ← get jsonWallet "mnemonic_iv" ≫= hex2buf_of;
  Ok {| encryptedMnemonic := encryptedMnemonic;
        encryptedMnemonicIV := encryptedMnemonicIV |}.

(** [json.map(f)]: only an array has a [map] to call. *)
Definition array_map {A : Type} (f : Value -> Result A) (json : Value) : Result (list A) :=
  match json with
  | Arr elems => mapM f elems
  | _ => Raise TypeError
  end.

Definition getEncryptedWallets (this : RocksideApi) (username : string)
    (passwordHash : list byte) : Async (list EncryptedWallet) :=
  resp ← send this "/encryptedaccounts/wallets" "POST"
           (Obj [("username", Str username); ("password_hash", Str (buf2hex passwordHash))]);
  if negb (status resp =? 200)%Z then throw_await (extractError resp)
  else
    json ← sync (json resp);
    wallets ← sync (array_map decode_wallet json);
    Return wallets.

Definition deployIdentityContract (this : RocksideApi) (address : string) : Async Value :=
  let route := "/ethereum/" ++ network_name (network (opts this))
               ++ "/contracts/relayableidentity" in
  resp ← send this route "POST" (Obj [("account", Str address)]);
  if negb (status resp =? 201)%Z then throw_await (extractError resp)
  else
    json ← sync (json resp);
    address ← sync (get json "address");
    txHash ← sync (get json "transaction_hash");
    Return (Obj [("address", address); ("txHash", txHash)]).

(** The object literal that [relayTransaction] sends. *)
Definition relayTransaction_body (tx : ExecuteTransaction) : Value :=
  Obj [("relayer", Str (tx_relayer tx));
       ("from", Str (tx_from tx));
       ("to", Str (tx_to tx));
       ("value", Str ("0x" ++ Number_toString (tx_value tx) 16));
       ("data", Str (buf2hex (tx_data tx)));
       ("signature", Str (tx_signature tx))].

Definition relayTransaction (this : RocksideApi) (identity : string)
    (tx : ExecuteTransaction) : Async Value :=
  let route := "/ethereum/" ++ network_name (network (opts this))
               ++ "/contracts/relayableidentity/" ++ identity ++ "/relayExecute" in
  resp ← send this route "POST" (relayTransaction_body tx);
  if negb (status resp =? 200)%Z then throw_await (extractError resp)
  else
    json ← sync (json resp);
    transaction_hash ← sync (get json "transaction_hash");
    tracking_id ← sync (get json "tracking_id");
    Return (Obj [("transaction_hash", transaction_hash); ("tracking_id", tracking_id)]).

Definition getTransaction (this : RocksideApi) (txHashOrTrackingId : string)
  : Async Value :=
  let route := "/ethereum/" ++ network_name (network (opts this))
               ++ "/transactions/" ++ txHashOrTrackingId in
  resp ← send this route "GET" Null;
  if negb (status resp =? 200)%Z then throw_await (extractError resp)
  else
    json ← sync (json resp);
    Return json.

Definition getRpcUrl (this : RocksideApi) : string :=
  baseUrl (opts this) ++ "/ethereum/" ++ network_name (network (opts this)) ++ "/jsonrpc".

Definition getToken (this : RocksideApi) : option string :=
  token (opts this).

Section Conversions.

(** [Number(v)]: the runtime's conversion of a value to a number, which
    the integer model of numbers cannot give in general; the methods that
    call it are stated for any such function. *)
Variable Number_of : Value -> Value.

Definition getRelayParams (this : RocksideApi) (identity account : string) (channel : Z)
  : Async Value :=
  let route := "/ethereum/" ++ network_name (network (opts this))
               ++ "/contracts/relayableidentity/" ++ identity ++ "/relayParams" in
  resp ← send this route "POST"
           (Obj [("account", Str account); ("channel_id", Str (Number_toString10 channel))]);
  if negb (status resp =? 200)%Z then throw_await (extractError resp)
  else
    json ← sync (json resp);
    nonce ← sync (get json "nonce");
    relayer ← sync (get json "relayer");
    Return (Obj [("nonce", Number_of nonce); ("relayer", relayer)]).

(** A call of one of the asynchronous methods, with its arguments. *)
Inductive Call : Type -> Type :=
| Call_getIdentities : Call Value
| Call_createIdentity (forwarder account : string) : Call Value
| Call_getEOAs : Call Value
| Call_createEOA : Call Value
| Call_signMessageWithEOA (eoa hash : string) : Call Value
| Call_sendTransaction (tx : Value) : Call Value
| Call_createEncryptedAccount (account : EncryptedAccount) : Call unit
| Call_connectEncryptedAccount (username : string) (passwordHash : list byte)
    : Call EncryptionKey
| Call_createEncryptedWallet (account : EncryptedAccount) (wallet : EncryptedWallet)
    : Call unit
| Call_getEncryptedWallets (username : string) (passwordHash : list byte)
    : Call (list EncryptedWallet)
| Call_deployIdentityContract (address : string) : Call Value
| Call_getRelayParams (identity account : string) (channel : Z) : Call Value
| Call_relayTransaction (identity : string) (tx : ExecuteTransaction) : Call Value
| Call_getTransaction (txHashOrTrackingId : string) : Call Value.

Definition invoke (this : RocksideApi) {A : Type} (c : Call A) : Async A :=
  match c with
  | Call_getIdentities => getIdentities this
  | Call_createIdentity forwarder account => createIdentity this forwarder account
  | Call_getEOAs => getEOAs this
  | Call_createEOA => createEOA this
  | Call_signMessageWithEOA eoa hash => signMessageWithEOA this eoa hash
  | Call_sendTransaction tx => sendTransaction this tx
  | Call_createEncryptedAccount account => createEncryptedAccount this account
  | Call_connectEncryptedAccount username passwordHash =>
      connectEncryptedAccount this username passwordHash
  | Call_createEncryptedWallet account wallet => createEncryptedWallet this account wallet
  | Call_getEncryptedWallets username passwordHash =>
      getEncryptedWallets this username passwordHash
  | Call_deployIdentityContract address => deployIdentityContract this address
  | Call_getRelayParams identity account channel =>
      getRelayParams this identity account channel
  | Call_relayTransaction identity tx => relayTransaction this identity tx
  | Call_getTransaction txHashOrTrackingId => getTransaction this txHashOrTrackingId
  end.

End Conversions.

(** ** Notions used in the statements *)

(** Every character of [s] satisfies [P]. *)
Fixpoint all_chars (P : ascii -> bool) (s : string) : bool :=
  match s with
  | String c s' => P c && all_chars P s'
  | EmptyString => true
  end.

(** A digit of radix 16, as [parseInt] reads it. *)
Definition is_hex_digit (c : ascii) : bool :=
  match digit_value c with
  | Some d => (d <? 16)%Z
  | None => false
  end.

(** A character that [JSON.stringify] writes as it is. *)
Definition is_plain (c : ascii) : bool :=
  let n := Z.of_nat (nat_of_ascii c) in
  (32 <=? n)%Z && negb (n =? 34)%Z && negb (n =? 92)%Z.

(** The digits of a buffer, without the prefix. *)
Definition hexs (b : list byte) : string := join_empty (map hex_of_byte b).

(** A byte as exactly two digits out of [0123456789abcdef]: the high half
    first, a zero in front of a value below 16. *)
Definition two_hex_digits (x : byte) : string :=
  let lower_hex d := default "0"%char (String.get (Z.to_nat d) "0123456789abcdef") in
  String (lower_hex (byte_value x / 16)%Z)
    (String (lower_hex (byte_value x mod 16)%Z) EmptyString).

(** An optional credential that is there and is not the empty string. *)
Definition nonempty (o : option string) : Prop :=
  exists s, o = Some s /\ s <> EmptyString.

(** An optional credential that is missing or is the empty string. *)
Definition absent_or_empty (o : option string) : Prop :=
  o = None \/ o = Some EmptyString.

(** A request built by [send] of this client: it carries the client's
    headers and its URL starts with the base URL. *)
Definition from_client (this : RocksideApi) (req : Request) : Prop :=
  req_headers req = headers this /\
  exists route, req_url req = baseUrl (opts this) ++ route.

(** The text the source's [relayTransaction] puts into the request: the
    six members in the order of the object literal, the value and the data
    between plain quotes. *)
Definition relayTransaction_json (tx : ExecuteTransaction) : string :=
  "{" ++ join_with ","
    [ member "relayer" (quote (tx_relayer tx));
      member "from" (quote (tx_from tx));
      member "to" (quote (tx_to tx));
      member "value" (dquote ++ ("0x" ++ Number_toString (tx_value tx) 16) ++ dquote);
      member "data" (dquote ++ buf2hex (tx_data tx) ++ dquote);
      member "signature" (quote (tx_signature tx)) ] ++ "}".

(** The same text for any value and data texts. *)
Definition relayTransaction_text (tx : ExecuteTransaction) (value data : string) : string :=
  "{" ++ join_with ","
    [ member "relayer" (quote (tx_relayer tx));
      member "from" (quote (tx_from tx));
      member "to" (quote (tx_to tx));
      member "value" (dquote ++ value ++ dquote);
      member "data" (dquote ++ data ++ dquote);
      member "signature" (quote (tx_signature tx)) ] ++ "}".



(** JSON text written with apostrophes where JSON has double quotes. *)
Fixpoint json_text (s : string) : string :=
  match s with
  | String c s' => String (if Ascii.eqb c "'"%char then "034"%char else c) (json_text s')
  | EmptyString => EmptyString
  end.

(** *** Sample inputs *)

Definition opts_apikey : RocksideApiOpts :=
  {| baseUrl := "https://x"; token := None; apikey := Some "k"; network := mainnet |}.

Definition opts_token : RocksideApiOpts :=
  {| baseUrl := "https://x"; token := Some "t"; apikey := None; network := mainnet |}.

Definition opts_both : RocksideApiOpts :=
  {| baseUrl := "https://x"; token := Some "t"; apikey := Some "k"; network := mainnet |}.

Definition opts_empty_apikey_and_token : RocksideApiOpts :=
  {| baseUrl := "https://x"; token := Some "t"; apikey := Some EmptyString;
     network := mainnet |}.

Definition opts_empty_apikey : RocksideApiOpts :=
  {| baseUrl := "https://x"; token := None; apikey := Some EmptyString;
     network := mainnet |}.

Definition client_apikey : RocksideApi :=
  {| opts := opts_apikey; headers := {[ "apikey" := "k" ]} |}.

Definition client_token : RocksideApi :=
  {| opts := opts_token; headers := {[ "Authorization" := "Bearer t" ]} |}.

Definition sample_account : EncryptedAccount :=
  {| username := "u"; iterations := 10; passwordHash := [x01];
     passwordDerivedKeyHash := [x02]; encryptedEncryptionKey := [x03];
     encryptedEncryptionKeyIV := [x04] |}.

Definition sample_wallet : EncryptedWallet :=
  {| encryptedMnemonic := [xaa; xbb]; encryptedMnemonicIV := [x0c; x0d] |}.

Definition sample_tx : ExecuteTransaction :=
  {| tx_relayer := "r"; tx_from := "a"; tx_to := "b"; tx_value := 255;
     tx_data := [x01; xff]; tx_gas := 0; tx_gasPrice := 0; tx_signature := "s" |}.

Definition response_db_down : Response :=
  {| status := 500; json := Ok (Obj [("error", Str "db down")]) |}.

(** The service answering a fetch of the wallets with the record of
    [sample_wallet] as [createEncryptedWallet] sent it. *)
Definition response_stored_wallet : Response :=
  {| status := 200;
     json := Ok (Arr [createEncryptedWallet_body sample_account sample_wallet]) |}.

(** A network without a connection: every [fetch] rejects. *)
Definition offline : Network := fun _ => Raise (NetworkError "offline").

(** ** Notions used in the further properties *)

(** The bytes of a text of digits, two characters at a time; a last
    character without a partner gives no byte. *)
Fixpoint decode_pairs (s : string) : list byte :=
  match s with
  | String a (String b rest) =>
      ToUint8 (parseInt (String a (String b EmptyString)) 16) :: decode_pairs rest
  | _ => []
  end.

(** A letter in lower case, any other character as it is. *)
Definition to_lower (c : ascii) : ascii :=
  let n := nat_of_ascii c in
  if (65 <=? n)%nat && (n <=? 90)%nat then ascii_of_nat (n + 32) else c.

Fixpoint lowercase (s : string) : string :=
  match s with
  | String c s' => String (to_lower c) (lowercase s')
  | EmptyString => EmptyString
  end.

(** A computation that awaits [fetch] at most once. *)
Definition single_fetch {A : Type} (m : Async A) : Prop :=
  match m with
  | Fetch _ k => forall resp, sends (fun _ => False) (k resp)
  | _ => True
  end.

(** The one method whose body is the caller's value. *)
Definition is_sendTransaction {A : Type} (c : Call A) : bool :=
  match c with
  | Call_sendTransaction _ => true
  | _ => false
  end.

(** The statuses on which a method goes on to its result: the ones its
    [if (resp.status != ...)] lets through. *)
Definition expected {A : Type} (c : Call A) : list Z :=
  match c with
  | Call_createIdentity _ _ | Call_createEncryptedWallet _ _
  | Call_deployIdentityContract _ => [201%Z]
  | Call_createEncryptedAccount _ => [201%Z; 409%Z]
  | _ => [200%Z]
  end.

(** What [throw await this.extractError(resp)] throws. *)
Definition server_error {A : Type} (resp : Response) : Result A :=
  match json resp with
  | Raise e => Raise e
  | Ok body =>
      match get body "error" with
      | Raise e => Raise e
      | Ok v => Raise (Error_of v)
      end
  end.

(** What [send] gives to [fetch] as the body, or the error of
    [JSON.stringify]. *)
Definition serialized (body : Value) : Result (option string) :=
  if ToBoolean body then JSON_stringify body else Ok None.

(** A wallet as a record under the names [getEncryptedWallets] reads. *)
Definition wallet_record (w : EncryptedWallet) : Value :=
  Obj [("encrypted_mnemonic", Str (buf2hex (encryptedMnemonic w)));
       ("mnemonic_iv", Str (buf2hex (encryptedMnemonicIV w)))].

(** The members of a serialized object, as [JSON_stringify] collects them. *)
Fixpoint members_of (props : list (string * Value)) : Result (list string) :=
  match props with
  | [] => Ok []
  | (k, e) :: rest =>
      match JSON_stringify e with
      | Raise x => Raise x
      | Ok o =>
          match members_of rest with
          | Raise x => Raise x
          | Ok strs =>
              Ok (match o with
                  | Some str => member k str :: strs
                  | None => strs
                  end)
          end
      end
  end.

(** Induction on values, through the elements of arrays and the members
    of objects. *)
Fixpoint Value_nested_ind (P : Value -> Prop)
    (HUndefined : P Undefined) (HNull : P Null) (HBool : forall b, P (Bool b))
    (HNum : forall z, P (Num z)) (HBigInt : forall z, P (BigInt z))
    (HStr : forall s, P (Str s))
    (HArr : forall elems, Forall P elems -> P (Arr elems))
    (HObj : forall props, Forall (fun kv => P (snd kv)) props -> P (Obj props))
    (v : Value) {struct v} : P v :=
  let rec := Value_nested_ind P HUndefined HNull HBool HNum HBigInt HStr HArr HObj in
  match v with
  | Undefined => HUndefined
  | Null => HNull
  | Bool b => HBool b
  | Num z => HNum z
  | BigInt z => HBigInt z
  | Str s => HStr s
  | Arr elems =>
      HArr elems
        ((fix all (l : list Value) : Forall P l :=
            match l with
            | [] => @List.Forall_nil _ P
            | x :: rest => @List.Forall_cons _ P x rest (rec x) (all rest)
            end) elems)
  | Obj props =>
      HObj props
        ((fix all (l : list (string * Value)) : Forall (fun kv => P (snd kv)) l :=
            match l with
            | [] => @List.Forall_nil _ _
            | kv :: rest => @List.Forall_cons _ _ kv rest (rec (snd kv)) (all rest)
            end) props)
  end.

(** The elements of a serialized array, as [JSON_stringify] collects them. *)
Fixpoint items_of (elems : list Value) : Result (list string) :=
  match elems with
  | [] => Ok []
  | e :: rest =>
      match JSON_stringify e with
      | Raise x => Raise x
      | Ok o =>
          match items_of rest with
          | Raise x => Raise x
          | Ok strs => Ok (default "null" o :: strs)
          end
      end
  end.

(** *** More sample inputs *)

Definition response_identities : Response :=
  {| status := 200; json := Ok (Arr [Str "0xabc"; Str "0xdef"]) |}.

(** An answer to [connectEncryptedAccount] under the names it reads. *)
Definition response_key : Response :=
  {| status := 200;
     json := Ok (Obj [("encrypted_encryption_key", Str "0x03");
                      ("encryption_key_iv", Str "0x04")]) |}.


(** An answer to [getEncryptedWallets] under the names it reads. *)
Definition response_wallets : Response :=
  {| status := 200; json := Ok (Arr (map wallet_record [sample_wallet])) |}.

Definition response_created : Response :=
  {| status := 201;
     json := Ok (Obj [("address", Str "0xabc"); ("transaction_hash", Str "0xdef")]) |}.

Definition sample_negative_tx : ExecuteTransaction :=
  {| tx_relayer := "r"; tx_from := "a"; tx_to := "b"; tx_value := -255;
     tx_data := []; tx_gas := 0; tx_gasPrice := 0; tx_signature := "s" |}.

Definition sample_bigint_tx : list (string * Value) :=
  [("from", Str "a"); ("value", BigInt 1)].

(** * Properties *)

(** ** Strings *)

Section StringFacts.

Lemma sapp_nil (t : string) : EmptyString ++ t = t.
Proof. reflexivity. Qed.

Lemma sapp_cons (c : ascii) (s t : string) : String c s ++ t = String c (s ++ t).
Proof. reflexivity. Qed.

Lemma sapp_assoc (s t u : string) : (s ++ t) ++ u = s ++ (t ++ u).
Proof. induction s as [|c s IH]; [done | by rewrite !sapp_cons, IH]. Qed.

Lemma len_app (s t : string) : len (s ++ t) = (len s + len t)%nat.
Proof. unfold len. induction s as [|c s IH]; simpl; [done | by rewrite IH]. Qed.

Lemma sdrop_app (s t : string) : sdrop (len s) (s ++ t) = t.
Proof. induction s as [|c s IH]; simpl; auto. Qed.

Lemma stake_app (s t : string) : stake (len s) (s ++ t) = s.
Proof. induction s as [|c s IH]; simpl; [by destruct t | by rewrite IH]. Qed.

Lemma sdrop_add (n m : nat) (s : string) : sdrop (n + m) s = sdrop m (sdrop n s).
Proof.
  revert s. induction n as [|n IH]; intros s; simpl; [done|].
  destruct s as [|c s]; [by destruct m | apply IH].
Qed.

Lemma substring_two (s : string) (i : nat) :
  substring s i (i + 2) = stake 2 (sdrop i s).
Proof.
  unfold substring.
  replace (Nat.min i (i + 2)) with i by lia.
  replace (Nat.max i (i + 2) - i)%nat with 2%nat by lia. done.
Qed.

End StringFacts.

(** ** Digits: [toString(16)] against [parseInt(_, 16)] *)

Section Digits.

Lemma all_chars_app (P : ascii -> bool) (s t : string) :
  all_chars P (s ++ t) = all_chars P s && all_chars P t.
Proof.
  induction s as [|c s IH]; [done|].
  rewrite sapp_cons. simpl. by rewrite IH, andb_assoc.
Qed.

Lemma all_chars_impl (P Q : ascii -> bool) (s : string) :
  (forall c, P c = true -> Q c = true) -> all_chars P s = true -> all_chars Q s = true.
Proof.
  intros HPQ. induction s as [|c s IH]; simpl; [done|].
  rewrite !andb_true_iff. intros [Hc Hs]. split; auto.
Qed.

Lemma digit_char_value (d : Z) :
  (0 <= d < 16)%Z -> digit_value (digit_char d) = Some d.
Proof.
  intros Hd.
  assert (Hcases : In d (map Z.of_nat (seq 0 16))).
  { apply in_map_iff. exists (Z.to_nat d). split; [lia | apply in_seq; lia]. }
  simpl in Hcases.
  repeat (destruct Hcases as [<- | Hcases]; [reflexivity|]); contradiction.
Qed.

Lemma digit_char_hex (d : Z) : (0 <= d < 16)%Z -> is_hex_digit (digit_char d) = true.
Proof.
  intros Hd. unfold is_hex_digit. rewrite (digit_char_value d Hd).
  apply Z.ltb_lt. lia.
Qed.

Lemma is_hex_digit_plain (c : ascii) : is_hex_digit c = true -> is_plain c = true.
Proof. destruct c as [[] [] [] [] [] [] [] []]; vm_compute; congruence. Qed.

Lemma digits_of_app (fuel : nat) :
  forall (n : Z) (acc : string),
    digits_of fuel 16 n acc = digits_of fuel 16 n EmptyString ++ acc.
Proof.
  induction fuel as [|fuel IH]; intros n acc; [done|].
  simpl. destruct (n <=? 0)%Z; [done|].
  rewrite IH. rewrite (IH _ (String _ EmptyString)).
  by rewrite sapp_assoc.
Qed.

Lemma digits_of_zero (fuel : nat) (acc : string) : digits_of fuel 16 0 acc = acc.
Proof. by destruct fuel. Qed.

Lemma radix_prefix_app (s t : string) :
  all_chars is_hex_digit s = true ->
  radix_prefix 16 (s ++ t) = (radix_prefix 16 s ++ radix_prefix 16 t)%list.
Proof.
  induction s as [|c s IH]; [done|].
  rewrite sapp_cons. simpl.
  rewrite andb_true_iff. intros [Hc Hs]. unfold is_hex_digit in Hc.
  destruct (digit_value c) as [d|]; [|done].
  rewrite Hc. simpl. by rewrite IH.
Qed.

Lemma radix_prefix_nonempty (s : string) :
  all_chars is_hex_digit s = true -> s <> EmptyString -> radix_prefix 16 s <> [].
Proof.
  destruct s as [|c s]; [done|]. simpl.
  rewrite andb_true_iff. intros [Hc _] _. unfold is_hex_digit in Hc.
  destruct (digit_value c) as [d|]; [|done]. by rewrite Hc.
Qed.

Lemma digits_value_snoc (ds : list Z) (d : Z) :
  digits_value 16 (ds ++ [d]) = (digits_value 16 ds * 16 + d)%Z.
Proof. unfold digits_value. by rewrite fold_left_app. Qed.

Lemma digits_of_spec (fuel : nat) :
  forall n : Z,
    (0 < n < 2 ^ Z.of_nat fuel)%Z ->
    let s := digits_of fuel 16 n EmptyString in
    all_chars is_hex_digit s = true /\ s <> EmptyString /\
    digits_value 16 (radix_prefix 16 s) = n.
Proof.
  induction fuel as [|fuel IH]; intros n Hn; [simpl in Hn; lia|].
  cbn zeta. simpl digits_of.
  destruct (Z.leb_spec n 0) as [|_]; [lia|].
  rewrite digits_of_app.
  assert (Hmod : (0 <= n mod 16 < 16)%Z) by (apply Z.mod_pos_bound; lia).
  assert (Hdiv : (n = 16 * (n / 16) + n mod 16)%Z) by (apply Z.div_mod; lia).
  destruct (Z.eq_dec (n / 16)%Z 0%Z) as [Hz|Hnz].
  - rewrite Hz, digits_of_zero. simpl.
    rewrite (digit_char_hex _ Hmod). split; [done|]. split; [done|].
    rewrite (digit_char_value _ Hmod).
    destruct (Z.ltb_spec (n mod 16) 16); [|lia].
    unfold digits_value. simpl. lia.
  - assert (Hq : (0 < n / 16 < 2 ^ Z.of_nat fuel)%Z).
    { split; [pose proof (Z.div_pos n 16); lia|].
      apply Z.div_lt_upper_bound; [lia|].
      rewrite Nat2Z.inj_succ, Z.pow_succ_r in Hn by lia. lia. }
    destruct (IH _ Hq) as (Hall & Hne & Hval).
    split; [|split].
    + rewrite all_chars_app, Hall. simpl. by rewrite (digit_char_hex _ Hmod).
    + destruct (digits_of fuel 16 (n / 16) EmptyString); [done | discriminate].
    + rewrite radix_prefix_app by done. simpl.
      rewrite (digit_char_value _ Hmod).
      destruct (Z.ltb_spec (n mod 16) 16); [|lia].
      rewrite digits_value_snoc, Hval. lia.
Qed.

Lemma Number_toString_hex (v : Z) :
  (0 <= v)%Z ->
  let s := Number_toString v 16 in
  all_chars is_hex_digit s = true /\ s <> EmptyString /\
  digits_value 16 (radix_prefix 16 s) = v.
Proof.
  intros Hv. unfold Number_toString.
  destruct (Z.ltb_spec v 0); [lia|].
  destruct (Z.eqb_spec v 0) as [->|Hnz]; [done|].
  apply digits_of_spec.
  split; [lia|].
  rewrite Nat2Z.inj_succ, Z2Nat.id by apply Z.log2_nonneg.
  apply Z.log2_spec. lia.
Qed.

Lemma parseInt_0x (s : string) :
  parseInt ("0x" ++ s) 16 =
  match radix_prefix 16 s with
  | [] => None
  | ds => Some (1 * digits_value 16 ds)%Z
  end.
Proof. reflexivity. Qed.

Lemma parseInt_toString (v : Z) :
  (0 <= v)%Z -> parseInt ("0x" ++ Number_toString v 16) 16 = Some v.
Proof.
  intros Hv. rewrite parseInt_0x.
  destruct (Number_toString_hex v Hv) as (Hall & Hne & Hval).
  pose proof (radix_prefix_nonempty _ Hall Hne) as Hds.
  destruct (radix_prefix 16 (Number_toString v 16)) as [|d ds]; [done|].
  rewrite Hval. f_equal. lia.
Qed.

End Digits.

(** ** The codec *)

Section Codec.

Lemma hex_of_byte_len (x : byte) : len (hex_of_byte x) = 2%nat.
Proof. destruct x; reflexivity. Qed.

Lemma hex_of_byte_parse (x : byte) : ToUint8 (parseInt (hex_of_byte x) 16) = x.
Proof. destruct x; vm_compute; reflexivity. Qed.

Lemma hexs_len (b : list byte) : len (hexs b) = (2 * length b)%nat.
Proof.
  induction b as [|x b IH]; [done|].
  unfold hexs in *. simpl. rewrite len_app, hex_of_byte_len, IH. simpl. lia.
Qed.

Lemma hexs_drop (b : list byte) (k : nat) : sdrop (2 * k) (hexs b) = hexs (drop k b).
Proof.
  revert b. induction k as [|k IH]; intros b; [done|].
  destruct b as [|x b]; [done|].
  replace (2 * S k)%nat with (2 + 2 * k)%nat by lia.
  rewrite sdrop_add. change (drop (S k) (x :: b)) with (drop k b).
  rewrite <- IH. f_equal.
  change (hexs (x :: b)) with (hex_of_byte x ++ hexs b).
  rewrite <- (hex_of_byte_len x) at 1. apply sdrop_app.
Qed.

Lemma hexs_chunk (b : list byte) (k : nat) (x : byte) :
  b !! k = Some x -> substring (hexs b) (2 * k) (2 * k + 2) = hex_of_byte x.
Proof.
  intros Hk. rewrite substring_two, hexs_drop.
  rewrite (drop_S _ _ _ Hk).
  change (hexs (x :: drop (S k) b)) with (hex_of_byte x ++ hexs (drop (S k) b)).
  rewrite <- (hex_of_byte_len x) at 1. apply stake_app.
Qed.

Lemma hex2buf_loop_step (fuel : nat) (s : string) (i : nat) (view : list byte) :
  hex2buf_loop (S fuel) s i view =
  if (i <? len s)%nat then
    hex2buf_loop fuel s (i + 2)
      (Uint8Array_store view (i / 2)%nat (parseInt (substring s i (i + 2)) 16))
  else view.
Proof. reflexivity. Qed.

Lemma hex2buf_loop_decodes (fuel : nat) :
  forall (b : list byte) (k : nat),
    k <= length b -> length b - k <= fuel ->
    hex2buf_loop fuel (hexs b) (2 * k) (take k b ++ replicate (length b - k) x00)%list = b.
Proof.
  induction fuel as [|fuel IH]; intros b k Hk Hfuel.
  - simpl. replace (length b - k)%nat with 0%nat by lia.
    simpl. rewrite app_nil_r. apply take_ge. lia.
  - rewrite hex2buf_loop_step, hexs_len.
    destruct (Nat.ltb_spec (2 * k) (2 * length b)) as [Hlt|Hge].
    + assert (Hlook : is_Some (b !! k)) by (apply lookup_lt_is_Some; lia).
      destruct Hlook as [x Hx].
      rewrite (hexs_chunk b k x Hx).
      replace (2 * k / 2)%nat with k by (symmetry; rewrite Nat.mul_comm; apply Nat.div_mul; lia).
      unfold Uint8Array_store. rewrite hex_of_byte_parse.
      replace (2 * k + 2)%nat with (2 * S k)%nat by lia.
      replace (<[k:=x]> (take k b ++ replicate (length b - k) x00)%list)
        with (take (S k) b ++ replicate (length b - S k) x00)%list.
      * apply IH; lia.
      * rewrite (take_S_r _ _ _ Hx).
        replace (length b - k)%nat with (S (length b - S k)) by lia.
        simpl replicate. rewrite <- app_assoc. simpl.
        rewrite insert_app_r_alt by (rewrite length_take; lia).
        rewrite length_take. replace (k - k `min` length b)%nat with 0%nat by lia.
        done.
    + replace (length b - k)%nat with 0%nat by lia.
      simpl. rewrite app_nil_r. apply take_ge. lia.
Qed.

Lemma hex2buf_loop_fuel (s : string) (fuel : nat) :
  forall (extra i : nat) (view : list byte),
    len s <= i + 2 * fuel ->
    hex2buf_loop (fuel + extra) s i view = hex2buf_loop fuel s i view.
Proof.
  induction fuel as [|fuel IH]; intros extra i view Hfuel.
  - simpl. destruct extra as [|extra]; [done|]. simpl.
    destruct (Nat.ltb_spec i (len s)); [lia | done].
  - change (S fuel + extra)%nat with (S (fuel + extra)).
    rewrite !hex2buf_loop_step. destruct (Nat.ltb_spec i (len s)); [|done].
    apply IH. lia.
Qed.

Lemma buf2hex_noPrefix (b : list byte) : substring_from (buf2hex b) 2 = hexs b.
Proof. reflexivity. Qed.

Lemma hex2buf_buf2hex (b : list byte) : hex2buf (buf2hex b) = b.
Proof.
  unfold hex2buf. rewrite buf2hex_noPrefix, hexs_len.
  replace (2 * length b / 2)%nat with (length b)
    by (symmetry; rewrite Nat.mul_comm; apply Nat.div_mul; lia).
  unfold Uint8Array_new.
  pose proof (hex2buf_loop_decodes (2 * length b) b 0) as H.
  simpl take in H. simpl app in H. rewrite Nat.sub_0_r in H.
  apply H; lia.
Qed.

End Codec.

(** ** Computations and the requests they send *)

Section Computations.

Context {A B : Type}.

Lemma bind_unfold (f : A -> Async B) (m : Async A) : m ≫= f = Async_bind f m.
Proof. reflexivity. Qed.

Lemma sends_bind (P : Request -> Prop) (m : Async A) (f : A -> Async B) :
  sends P m -> (forall a, sends P (f a)) -> sends P (m ≫= f).
Proof.
  intros Hm Hf. rewrite bind_unfold.
  induction m as [a|e|req k IH]; simpl; [apply Hf | done |].
  destruct Hm as [Hreq Hk]. split; [done|]. intros resp. apply IH, Hk.
Qed.

Lemma sends_sync (P : Request -> Prop) (r : Result A) : sends P (sync r).
Proof. by destruct r. Qed.

End Computations.

Lemma sends_extractError (P : Request -> Prop) (resp : Response) :
  sends P (extractError resp).
Proof.
  unfold extractError.
  apply sends_bind; [apply sends_sync|]. intros body.
  apply sends_bind; [apply sends_sync|]. done.
Qed.

Lemma sends_throw_await {A : Type} (P : Request -> Prop) (m : Async Exception) :
  sends P m -> sends P (throw_await (A:=A) m).
Proof. intros Hm. unfold throw_await. by apply sends_bind. Qed.

Lemma sends_send (P : Request -> Prop) (this : RocksideApi) (route method : string)
    (body : Value) :
  (forall b, P {| req_url := baseUrl (opts this) ++ route; req_method := method;
                  req_body := b; req_headers := headers this |}) ->
  sends P (send this route method body).
Proof.
  intros HP. unfold send.
  apply sends_bind; [apply sends_sync|]. intros b. simpl. split; [apply HP | done].
Qed.

(** One step through the body of a method. *)
Ltac sends_step :=
  match goal with
  | |- sends _ (send _ _ _ _ ≫= _) => apply sends_bind; [apply sends_send|intros ?]
  | |- sends _ (sync _ ≫= _) => apply sends_bind; [apply sends_sync|intros ?]
  | |- sends _ (sync _) => apply sends_sync
  | |- sends _ (throw_await _) => apply sends_throw_await, sends_extractError
  | |- sends _ (if ?b then _ else _) => destruct b
  | |- sends _ (let _ := _ in _) => cbv zeta
  | |- sends _ (Return _) => exact I
  | |- forall _, from_client _ _ => intros ?; split; [reflexivity | eexists; reflexivity]
  end.

Lemma sends_invoke (Number_of : Value -> Value) (this : RocksideApi) {A : Type}
    (c : Call A) :
  sends (from_client this) (invoke Number_of this c).
Proof.
  destruct c; simpl invoke;
    unfold getIdentities, createIdentity, getEOAs, createEOA, signMessageWithEOA,
      sendTransaction, createEncryptedAccount, connectEncryptedAccount,
      createEncryptedWallet, getEncryptedWallets, deployIdentityContract,
      getRelayParams, relayTransaction, getTransaction;
    repeat sends_step.
Qed.

Section Quoting.

Lemma quote_char_plain (c : ascii) : is_plain c = true -> quote_char c = String c EmptyString.
Proof. destruct c as [[] [] [] [] [] [] [] []]; vm_compute; congruence. Qed.

Lemma quote_chars_plain (s : string) : all_chars is_plain s = true -> quote_chars s = s.
Proof.
  induction s as [|c s IH]; [done|]. simpl.
  rewrite andb_true_iff. intros [Hc Hs].
  by rewrite (quote_char_plain c Hc), (IH Hs).
Qed.

Lemma quote_plain (s : string) :
  all_chars is_plain s = true -> quote s = dquote ++ s ++ dquote.
Proof. intros Hs. unfold quote. by rewrite (quote_chars_plain s Hs). Qed.

Lemma hex_of_byte_plain (x : byte) : all_chars is_plain (hex_of_byte x) = true.
Proof. destruct x; reflexivity. Qed.

Lemma buf2hex_plain (b : list byte) : all_chars is_plain (buf2hex b) = true.
Proof.
  unfold buf2hex. rewrite all_chars_app. apply andb_true_iff. split; [done|].
  induction b as [|x b IH]; [done|].
  change (all_chars is_plain (hex_of_byte x ++ join_empty (map hex_of_byte b)) = true).
  by rewrite all_chars_app, hex_of_byte_plain, IH.
Qed.

Lemma Number_toString_plain (v : Z) : all_chars is_plain (Number_toString v 16) = true.
Proof.
  assert (Hnonneg : forall n, (0 <= n)%Z -> all_chars is_plain (Number_toString n 16) = true).
  { intros n Hn. destruct (Number_toString_hex n Hn) as (Hall & _ & _).
    revert Hall. apply all_chars_impl, is_hex_digit_plain. }
  destruct (Z.ltb_spec v 0) as [Hneg|Hpos]; [|by apply Hnonneg].
  assert (Hv : (0 < - v)%Z) by lia.
  specialize (Hnonneg (- v)%Z ltac:(lia)).
  unfold Number_toString in *.
  destruct (Z.ltb_spec v 0); [|lia].
  destruct (Z.ltb_spec (- v) 0); [lia|].
  destruct (Z.eqb_spec (- v) 0); [lia|].
  simpl. exact Hnonneg.
Qed.

End Quoting.

Lemma sent_silent {A : Type} (net : Network) (m : Async A) :
  sends (fun _ => False) m -> sent net m = [].
Proof. destruct m; simpl; [done | done | tauto]. Qed.

Lemma sent_send {A : Type} (net : Network) (this : RocksideApi) (route method : string)
    (body : Value) (str : string) (k : Response -> Async A) :
  ToBoolean body = true -> JSON_stringify body = Ok (Some str) ->
  (forall resp, sends (fun _ => False) (k resp)) ->
  sent net (send this route method body ≫= k) =
  [ {| req_url := baseUrl (opts this) ++ route; req_method := method;
       req_body := Some str; req_headers := headers this |} ].
Proof.
  intros Htrue Hstr Hk. unfold send. rewrite Htrue, Hstr. simpl.
  destruct (net _) as [resp|]; [|done]. f_equal. apply sent_silent, Hk.
Qed.

Lemma sends_impl {A : Type} (P Q : Request -> Prop) (m : Async A) :
  sends P m -> (forall req, P req -> Q req) -> sends Q m.
Proof.
  intros Hm HPQ. induction m as [a|e|req k IH]; simpl; [done | done |].
  destruct Hm as [Hreq Hk]. split; [by apply HPQ|]. intros resp. apply IH, Hk.
Qed.

Lemma run_send {A : Type} (net : Network) (this : RocksideApi) (route method : string)
    (body : Value) (str : string) (k : Response -> Async A) :
  ToBoolean body = true -> JSON_stringify body = Ok (Some str) ->
  run net (send this route method body ≫= k) =
  match net {| req_url := baseUrl (opts this) ++ route; req_method := method;
               req_body := Some str; req_headers := headers this |} with
  | Ok resp => run net (k resp)
  | Raise e => Raise e
  end.
Proof. intros Htrue Hstr. unfold send. by rewrite Htrue, Hstr. Qed.

Lemma run_extractError {A : Type} (net : Network) (resp : Response) :
  run net (throw_await (A:=A) (extractError resp)) =
  match json resp with
  | Raise e => Raise e
  | Ok body =>
      match get body "error" with
      | Raise e => Raise e
      | Ok v => Raise (Error_of v)
      end
  end.
Proof.
  unfold throw_await, extractError.
  destruct (json resp) as [body|e]; [|done]. simpl.
  by destruct (get body "error").
Qed.

(** ** Serialized bodies *)

Lemma JSON_stringify_Obj (props : list (string * Value)) :
  JSON_stringify (Obj props) <> Ok None.
Proof.
  simpl.
  match goal with
  | |- context [match ?m with Ok _ => _ | Raise _ => _ end] => by destruct m
  end.
Qed.

Lemma createEncryptedAccount_body_json (account : EncryptedAccount) :
  exists str, JSON_stringify (createEncryptedAccount_body account) = Ok (Some str).
Proof. eexists. reflexivity. Qed.

Lemma relayTransaction_body_json (tx : ExecuteTransaction) :
  JSON_stringify (relayTransaction_body tx) = Ok (Some (relayTransaction_json tx)).
Proof.
  unfold relayTransaction_json.
  rewrite <- (quote_plain (buf2hex (tx_data tx))) by apply buf2hex_plain.
  rewrite <- (quote_plain ("0x" ++ Number_toString (tx_value tx) 16)).
  - reflexivity.
  - change ("0x" ++ Number_toString (tx_value tx) 16)
      with (String "0" (String "x" (Number_toString (tx_value tx) 16))).
    simpl. apply Number_toString_plain.
Qed.

Lemma buf2hex_two_hex_digits (b : list byte) :
  buf2hex b = "0x" ++ join_empty (map two_hex_digits b).
Proof.
  unfold buf2hex. f_equal. f_equal. apply map_ext.
  intros x. destruct x; reflexivity.
Qed.


Lemma relayTransaction_json_text (tx : ExecuteTransaction) :
  relayTransaction_json tx =
  relayTransaction_text tx ("0x" ++ Number_toString (tx_value tx) 16)
    ("0x" ++ join_empty (map two_hex_digits (tx_data tx))).
Proof. unfold relayTransaction_json. by rewrite buf2hex_two_hex_digits. Qed.



Example relayTransaction_sample :
  sent offline (relayTransaction client_apikey "id" sample_tx) =
  [ {| req_url := "https://x/ethereum/mainnet/contracts/relayableidentity/id/relayExecute";
       req_method := "POST";
       req_body := Some (json_text
         "{'relayer':'r','from':'a','to':'b','value':'0xff','data':'0x01ff','signature':'s'}");
       req_headers := {[ "apikey" := "k" ]} |} ].
Proof. reflexivity. Qed.

(** ** Credentials *)

Lemma ToBoolean_nonempty (o : option string) :
  nonempty o -> ToBoolean (of_optional o) = true.
Proof. intros (s & -> & Hs). simpl. by destruct s. Qed.

Lemma ToBoolean_absent_or_empty (o : option string) :
  absent_or_empty o -> ToBoolean (of_optional o) = false.
Proof. by intros [-> | ->]. Qed.

Lemma credential_cases (o : option string) : nonempty o \/ absent_or_empty o.
Proof.
  destruct o as [[|c s]|].
  - right. by right.
  - left. by eexists.
  - right. by left.
Qed.

Lemma authenticationChecks_cases (o : RocksideApiOpts) :
  authenticationChecks o =
  match ToBoolean (of_optional (apikey o)), ToBoolean (of_optional (token o)) with
  | true, true => Raise (Error "Both access token and api key provided. Only one needed.")
  | false, false =>
      Raise (Error "No authentication method provided: define apikey or token.")
  | _, _ => Ok tt
  end.
Proof.
  unfold authenticationChecks.
  by destruct (ToBoolean (of_optional (apikey o))), (ToBoolean (of_optional (token o))).
Qed.

Lemma constructor_opts (o : RocksideApiOpts) (this : RocksideApi) :
  constructor o = Ok this -> this = {| opts := o; headers := generateHeaders o |}.
Proof.
  unfold constructor. destruct (authenticationChecks o); simpl; [|done].
  by intros [= <-].
Qed.

Lemma constructor_one_credential (o : RocksideApiOpts) (this : RocksideApi) :
  constructor o = Ok this ->
  (nonempty (apikey o) /\ absent_or_empty (token o)) \/
  (absent_or_empty (apikey o) /\ nonempty (token o)).
Proof.
  unfold constructor. rewrite authenticationChecks_cases.
  destruct (credential_cases (apikey o)) as [Hk|Hk],
           (credential_cases (token o)) as [Ht|Ht];
    rewrite ?(ToBoolean_nonempty _ Hk), ?(ToBoolean_absent_or_empty _ Hk),
            ?(ToBoolean_nonempty _ Ht), ?(ToBoolean_absent_or_empty _ Ht);
    simpl; intros Hnew; try discriminate; tauto.
Qed.

(** ** The model on sample inputs *)

(** Input that is not hex: a sign is read, no digit gives 0, and the odd
    last character falls outside the buffer. *)
Example hex2buf_malformed : hex2buf "0x-f0xzz1" = [xf1; x00; x00].
Proof. reflexivity. Qed.

Example getIdentities_sample :
  run (fun _ => Ok {| status := 200; json := Ok (Arr [Str "0xabc"; Str "0xdef"]) |})
      (getIdentities client_apikey)
  = Ok (Arr [Str "0xabc"; Str "0xdef"]).
Proof. reflexivity. Qed.

(** A body that is the JSON [null] has no member to read. *)
Example extractError_null_body :
  run (fun _ => Ok {| status := 500; json := Ok Null |})
      (createEncryptedAccount client_token sample_account)
  = Raise TypeError.
Proof. reflexivity. Qed.

(** Numbers past 2^53 are printed with the shortest digits that are read
    as the same number, in the exponent form from 10^21 on. *)
Example Number_toString10_samples :
  map Number_toString10
    [0; 255; -42; 2 ^ 53 + 1; 2 ^ 64; 10 ^ 21; 2 ^ 70; 2 ^ 1024]%Z =
  ["0"; "255"; "-42"; "9007199254740992"; "18446744073709552000"; "1e+21";
   "1.1805916207174113e+21"; "Infinity"].
Proof. vm_compute. reflexivity. Qed.

(** An [error] member that is an object with a [toString] member has no
    string: [new Error] of it throws a [TypeError]. *)
Example extractError_unprintable_member :
  run (fun _ => Ok {| status := 500;
                      json := Ok (Obj [("error", Obj [("toString", Num 1)])]) |})
      (createEncryptedAccount client_token sample_account)
  = Raise TypeError.
Proof. reflexivity. Qed.

(** A failed transport is what the call throws. *)
Example createEOA_offline :
  run offline (createEOA client_apikey) = Raise (NetworkError "offline").
Proof. reflexivity. Qed.

(** * The claims *)

(** ** The hex codec *)

(** C1. For every byte buffer [b], the empty one included, decoding the
    encoding gives [b] back: [hex2buf (buf2hex b) = b].  The empty buffer
    is encoded as ["0x"], and ["0x"] is decoded as the empty buffer. *)
Theorem hex_codec_roundtrip :
  (forall b : list byte, hex2buf (buf2hex b) = b) /\
  buf2hex [] = "0x" /\
  hex2buf "0x" = [].
Proof.
  split; [exact hex2buf_buf2hex|]. split; reflexivity.
Qed.

(** C5. [buf2hex] writes ["0x"] and then, for every byte, exactly two
    lowercase hex digits, with a zero in front of a value below 16; so the
    text has two characters per byte after the prefix.  The byte [0x00]
    gives ["0x00"], the bytes [0x01, 0xFF] give ["0x01ff"]. *)
Theorem buf2hex_zero_padded :
  buf2hex [x00] = "0x00" /\
  buf2hex [x01; xff] = "0x01ff" /\
  forall b : list byte,
    buf2hex b = "0x" ++ join_empty (map two_hex_digits b) /\
    len (buf2hex b) = (2 + 2 * length b)%nat /\
    all_chars is_hex_digit (hexs b) = true.
Proof.
  split; [reflexivity|]. split; [reflexivity|]. intros b.
  assert (Hbyte : forall x : byte, hex_of_byte x = two_hex_digits x)
    by (intros x; destruct x; reflexivity).
  split; [|split].
  - unfold buf2hex. f_equal. f_equal. apply map_ext. intros x. apply Hbyte.
  - unfold buf2hex. fold (hexs b). rewrite len_app, hexs_len. reflexivity.
  - induction b as [|x b IH]; [reflexivity|].
    change (hexs (x :: b)) with (hex_of_byte x ++ hexs b).
    rewrite all_chars_app, IH, andb_true_r. destruct x; reflexivity.
Qed.

(** ** Construction *)

(** C2, as the code has it.  The constructor throws the error about two
    credentials when [apikey] and [token] are both there and not empty; it
    throws the error about a missing credential when each of them is
    missing or the empty string; it succeeds when exactly one of them is
    there and not empty.  It is a synchronous computation: taken as a step
    of an asynchronous one, it sends no request. *)
Theorem constructor_credentials (o : RocksideApiOpts) :
  (nonempty (apikey o) -> nonempty (token o) ->
   constructor o =
     Raise (Error "Both access token and api key provided. Only one needed.")) /\
  (absent_or_empty (apikey o) -> absent_or_empty (token o) ->
   constructor o =
     Raise (Error "No authentication method provided: define apikey or token.")) /\
  (nonempty (apikey o) -> absent_or_empty (token o) ->
   constructor o = Ok {| opts := o; headers := generateHeaders o |}) /\
  (absent_or_empty (apikey o) -> nonempty (token o) ->
   constructor o = Ok {| opts := o; headers := generateHeaders o |}) /\
  sends (fun _ => False) (sync (constructor o)).
Proof.
  unfold constructor. rewrite authenticationChecks_cases.
  repeat split.
  - intros Hk Ht. by rewrite (ToBoolean_nonempty _ Hk), (ToBoolean_nonempty _ Ht).
  - intros Hk Ht.
    by rewrite (ToBoolean_absent_or_empty _ Hk), (ToBoolean_absent_or_empty _ Ht).
  - intros Hk Ht.
    by rewrite (ToBoolean_nonempty _ Hk), (ToBoolean_absent_or_empty _ Ht).
  - intros Hk Ht.
    by rewrite (ToBoolean_absent_or_empty _ Hk), (ToBoolean_nonempty _ Ht).
  - apply sends_sync.
Qed.

Lemma constructor_credentials_witness :
  (nonempty (apikey opts_both) /\ nonempty (token opts_both)) /\
  constructor opts_both =
    Raise (Error "Both access token and api key provided. Only one needed.").
Proof.
  assert (Hk : nonempty (apikey opts_both)) by (eexists; split; [reflexivity | done]).
  assert (Ht : nonempty (token opts_both)) by (eexists; split; [reflexivity | done]).
  split; [by split|].
  exact (proj1 (constructor_credentials opts_both) Hk Ht).
Defined.

(** C2 as it is written fails: with an [apikey] that is the empty string
    and a token, both are supplied and the construction succeeds; with an
    [apikey] that is the empty string and no token, exactly one is
    supplied and the construction throws. *)
Lemma constructor_supplied_is_not_enough :
  (is_Some (apikey opts_empty_apikey_and_token) /\
   is_Some (token opts_empty_apikey_and_token) /\
   constructor opts_empty_apikey_and_token =
     Ok {| opts := opts_empty_apikey_and_token;
           headers := {[ "Authorization" := "Bearer t" ]} |}) /\
  (is_Some (apikey opts_empty_apikey) /\
   token opts_empty_apikey = None /\
   constructor opts_empty_apikey =
     Raise (Error "No authentication method provided: define apikey or token.")).
Proof. repeat split; by eexists. Qed.

(** C10. Whether a credential counts is decided by its truthiness: with
    [apikey] the empty string and a token that is not empty the
    construction succeeds and the headers are the Bearer ones; with
    [apikey] the empty string and no token it throws the error about a
    missing credential. *)
Theorem credentials_by_truthiness (o : RocksideApiOpts) :
  apikey o = Some EmptyString ->
  (forall t, token o = Some t -> t <> EmptyString ->
     constructor o =
       Ok {| opts := o; headers := {[ "Authorization" := "Bearer " ++ t ]} |}) /\
  (token o = None ->
     constructor o =
       Raise (Error "No authentication method provided: define apikey or token.")).
Proof.
  intros Hk. unfold constructor. rewrite authenticationChecks_cases.
  unfold generateHeaders. rewrite Hk. split.
  - intros t -> Ht. simpl. by destruct t.
  - by intros ->.
Qed.

Lemma credentials_by_truthiness_witness :
  apikey opts_empty_apikey_and_token = Some EmptyString /\
  constructor opts_empty_apikey_and_token =
    Ok {| opts := opts_empty_apikey_and_token;
          headers := {[ "Authorization" := "Bearer t" ]} |}.
Proof.
  split; [reflexivity|].
  apply (proj1 (credentials_by_truthiness opts_empty_apikey_and_token eq_refl) "t");
    [reflexivity | done].
Defined.

(** C3, as the code has it.  After a successful construction: with an
    [apikey] [k] that is not empty the headers are exactly [{apikey: k}];
    otherwise ([apikey] missing or empty) there is a token [t] that is not
    empty and the headers are exactly [{Authorization: "Bearer " ++ t}];
    and every request any method of the client sends carries these
    headers. *)
Theorem client_headers (o : RocksideApiOpts) (this : RocksideApi) :
  constructor o = Ok this ->
  (forall k, apikey o = Some k -> k <> EmptyString ->
     headers this = {[ "apikey" := k ]}) /\
  (absent_or_empty (apikey o) ->
     exists t, token o = Some t /\ t <> EmptyString /\
               headers this = {[ "Authorization" := "Bearer " ++ t ]}) /\
  (forall (Number_of : Value -> Value) (A : Type) (c : Call A),
     sends (fun req => req_headers req = headers this) (invoke Number_of this c)).
Proof.
  intros Hnew. rewrite (constructor_opts o this Hnew). simpl headers.
  split; [|split].
  - intros k Hk Hne. unfold generateHeaders.
    rewrite ToBoolean_nonempty by (by exists k). by rewrite Hk.
  - intros Hkey.
    destruct (constructor_one_credential o this Hnew)
      as [[Hk _] | [_ (t & Ht & Hne)]].
    + pose proof (ToBoolean_nonempty _ Hk) as Htrue.
      rewrite (ToBoolean_absent_or_empty _ Hkey) in Htrue. discriminate.
    + exists t. split; [done|]. split; [done|].
      unfold generateHeaders. rewrite (ToBoolean_absent_or_empty _ Hkey). by rewrite Ht.
  - intros Number_of A c.
    eapply sends_impl; [apply sends_invoke|].
    by intros req [Hreq _].
Qed.

Lemma client_headers_witness :
  constructor opts_apikey = Ok client_apikey /\
  headers client_apikey = {[ "apikey" := "k" ]}.
Proof.
  split; [reflexivity|].
  apply (proj1 (client_headers opts_apikey client_apikey eq_refl) "k");
    [reflexivity | done].
Defined.

(** C3 as it is written fails: an [apikey] was supplied, the empty
    string, the construction succeeds, and the headers are the Bearer
    ones, not [{apikey: ""}]. *)
Lemma headers_of_empty_apikey :
  apikey opts_empty_apikey_and_token = Some EmptyString /\
  exists this : RocksideApi,
    constructor opts_empty_apikey_and_token = Ok this /\
    headers this = {[ "Authorization" := "Bearer t" ]} /\
    headers this <> {[ "apikey" := EmptyString ]}.
Proof.
  split; [reflexivity|].
  exists {| opts := opts_empty_apikey_and_token;
            headers := {[ "Authorization" := "Bearer t" ]} |}.
  split; [reflexivity|]. split; [reflexivity|].
  intros Heq.
  change (({[ "Authorization" := "Bearer t" ]} : gmap string string)
          = {[ "apikey" := EmptyString ]}) in Heq.
  assert (Hkey : ({[ "apikey" := EmptyString ]} : gmap string string) !! "apikey"
                 = Some EmptyString) by apply lookup_singleton_eq.
  rewrite <- Heq, lookup_singleton_ne in Hkey by done.
  discriminate.
Qed.

(** ** Requests *)

(** C8, as the code has it.  The request of [send] goes to
    [baseUrl ++ route]; it has no body when the body given is [null], and
    the serialization of the body when that is an object, the empty object
    included, which is sent as [{}] (a body that cannot be serialized ends
    [send] with the error, before any request).  Every request of every
    method goes to a URL that starts with [baseUrl]. *)
Theorem send_request (this : RocksideApi) (route method : string) :
  let request body :=
    {| req_url := baseUrl (opts this) ++ route; req_method := method;
       req_body := body; req_headers := headers this |} in
  send this route method Null = Fetch (request None) Return /\
  (forall props : list (string * Value),
     match JSON_stringify (Obj props) with
     | Ok (Some str) =>
         send this route method (Obj props) = Fetch (request (Some str)) Return
     | Ok None => False
     | Raise e => send this route method (Obj props) = Throw e
     end) /\
  send this route method (Obj []) = Fetch (request (Some "{}")) Return /\
  (forall net : Network,
     sent net (createEOA this) =
     [ {| req_url := baseUrl (opts this) ++ "/ethereum/eoa"; req_method := "POST";
          req_body := Some "{}"; req_headers := headers this |} ]) /\
  (forall (Number_of : Value -> Value) (A : Type) (c : Call A),
     sends (fun req => exists route', req_url req = baseUrl (opts this) ++ route')
       (invoke Number_of this c)).
Proof.
  cbv zeta. split; [reflexivity|]. split; [|split; [reflexivity|split]].
  - intros props. unfold send. change (ToBoolean (Obj props)) with true. cbv iota.
    pose proof (JSON_stringify_Obj props) as Hsome.
    destruct (JSON_stringify (Obj props)) as [[str|]|e]; done.
  - intros net. unfold createEOA.
    apply sent_send; [reflexivity | reflexivity |].
    intros resp. repeat sends_step.
  - intros Number_of A c.
    eapply sends_impl; [apply sends_invoke|].
    by intros req [_ Hreq].
Qed.

(** C8 as it is written fails: the body of [createEOA] is the empty
    object, and the request carries the body [{}]. *)
Lemma createEOA_sends_a_body :
  sent offline (createEOA client_apikey) =
  [ {| req_url := "https://x/ethereum/eoa"; req_method := "POST";
       req_body := Some "{}"; req_headers := {[ "apikey" := "k" ]} |} ].
Proof. reflexivity. Qed.

(** C7. For every transaction with an integer amount, the body that
    [relayTransaction] sends has the member [value] set to ["0x"] followed
    by the amount in base 16, and the member [data] set to [buf2hex] of
    the buffer, that is ["0x"] and two lowercase hex digits for each byte;
    both stand in the serialized text of the one request as they are.
    The amount 255 is sent as ["0xff"] and the bytes [0x01, 0xFF] as
    ["0x01ff"]; an amount that is not negative is the number that
    [parseInt(_, 16)] reads back, and the data is the buffer that
    [hex2buf] reads back. *)
Theorem relayTransaction_encoding (this : RocksideApi) (identity : string)
    (tx : ExecuteTransaction) :
  let value := "0x" ++ Number_toString (tx_value tx) 16 in
  get (relayTransaction_body tx) "value" = Ok (Str value) /\
  get (relayTransaction_body tx) "data" = Ok (Str (buf2hex (tx_data tx))) /\
  (forall net : Network,
     sent net (relayTransaction this identity tx) =
     [ {| req_url := baseUrl (opts this) ++ "/ethereum/"
                     ++ network_name (network (opts this))
                     ++ "/contracts/relayableidentity/" ++ identity ++ "/relayExecute";
          req_method := "POST";
          req_body := Some (relayTransaction_json tx);
          req_headers := headers this |} ]) /\
  (tx_value tx = 255%Z -> value = "0xff") /\
  ((0 <= tx_value tx)%Z -> parseInt value 16 = Some (tx_value tx)) /\
  buf2hex (tx_data tx) = "0x" ++ join_empty (map two_hex_digits (tx_data tx)) /\
  hex2buf (buf2hex (tx_data tx)) = tx_data tx /\
  (tx_data tx = [x01; xff] -> buf2hex (tx_data tx) = "0x01ff") /\
  (forall net : Network,
     sent net (relayTransaction this identity tx) =
     [ {| req_url := baseUrl (opts this) ++ "/ethereum/"
                     ++ network_name (network (opts this))
                     ++ "/contracts/relayableidentity/" ++ identity ++ "/relayExecute";
          req_method := "POST";
          req_body :=
            Some (relayTransaction_text tx value
                    ("0x" ++ join_empty (map two_hex_digits (tx_data tx))));
          req_headers := headers this |} ]).
Proof.
  assert (Hsent : forall net : Network,
     sent net (relayTransaction this identity tx) =
     [ {| req_url := baseUrl (opts this) ++ "/ethereum/"
                     ++ network_name (network (opts this))
                     ++ "/contracts/relayableidentity/" ++ identity ++ "/relayExecute";
          req_method := "POST";
          req_body := Some (relayTransaction_json tx);
          req_headers := headers this |} ]).
  { intros net. unfold relayTransaction. cbv zeta.
    apply sent_send; [reflexivity | apply relayTransaction_body_json |].
    intros resp. repeat sends_step. }
  cbv zeta. split; [reflexivity|]. split; [reflexivity|]. split; [exact Hsent|].
  split; [by intros ->|]. split; [apply parseInt_toString|].
  split; [apply buf2hex_two_hex_digits|]. split; [apply hex2buf_buf2hex|].
  split; [by intros ->|].
  intros net. rewrite <- relayTransaction_json_text. apply Hsent.
Qed.

Lemma relayTransaction_encoding_witness :
  (tx_value sample_tx = 255%Z /\ (0 <= tx_value sample_tx)%Z /\
   tx_data sample_tx = [x01; xff]) /\
  "0x" ++ Number_toString (tx_value sample_tx) 16 = "0xff" /\
  parseInt "0xff" 16 = Some 255%Z /\
  buf2hex (tx_data sample_tx) = "0x01ff" /\
  sent offline (relayTransaction client_apikey "id" sample_tx) =
  [ {| req_url := "https://x/ethereum/mainnet/contracts/relayableidentity/id/relayExecute";
       req_method := "POST";
       req_body := Some (json_text
         "{'relayer':'r','from':'a','to':'b','value':'0xff','data':'0x01ff','signature':'s'}");
       req_headers := {[ "apikey" := "k" ]} |} ].
Proof.
  assert (H255 : tx_value sample_tx = 255%Z) by reflexivity.
  assert (Hpos : (0 <= tx_value sample_tx)%Z) by (simpl; lia).
  assert (Hdata : tx_data sample_tx = [x01; xff]) by reflexivity.
  split; [by repeat split|].
  pose proof (relayTransaction_encoding client_apikey "id" sample_tx)
    as (_ & _ & _ & Hff & Hparse & _ & _ & Hbytes & Hsent).
  split; [exact (Hff H255)|]. split; [exact (Hparse Hpos)|].
  split; [exact (Hbytes Hdata) | exact (Hsent offline)].
Defined.

(** ** Responses *)

(** C4. [createEncryptedAccount] returns without an error on the status
    201 and on the status 409.  On any other status it returns no value
    and throws what [extractError] makes of the response: the body is read
    as JSON; when that fails, the failure is what the call throws;
    otherwise it throws [new Error] of the [error] member of the body,
    whose message is that member when it is a string (a body that is the
    JSON [null] has no member to read, which is a [TypeError]). *)
Theorem createEncryptedAccount_status (this : RocksideApi) (account : EncryptedAccount)
    (resp : Response) :
  let outcome := run (fun _ => Ok resp) (createEncryptedAccount this account) in
  (status resp = 201%Z \/ status resp = 409%Z -> outcome = Ok tt) /\
  (status resp <> 201%Z -> status resp <> 409%Z ->
   (forall e, json resp = Raise e -> outcome = Raise e) /\
   (forall body v, json resp = Ok body -> get body "error" = Ok v ->
      outcome = Raise (Error_of v)) /\
   (forall body m, json resp = Ok body -> get body "error" = Ok (Str m) ->
      outcome = Raise (Error m)) /\
   outcome = server_error resp /\
   (forall a, outcome <> Ok a) /\
   (json resp = Ok Null -> outcome = Raise TypeError)).
Proof.
  cbv zeta. unfold createEncryptedAccount.
  destruct (createEncryptedAccount_body_json account) as [str Hstr].
  rewrite (run_send _ _ _ _ _ str) by done.
  split.
  - intros [-> | ->]; reflexivity.
  - intros H201 H409.
    destruct (Z.eqb_spec (status resp) 201); [done|].
    destruct (Z.eqb_spec (status resp) 409); [done|].
    simpl negb. simpl andb. cbv iota. rewrite run_extractError.
    split; [by intros e ->|]. split; [by intros body v -> ->|].
    split; [by intros body m -> ->|]. split; [reflexivity|]. split.
    + intros a. destruct (json resp) as [body|e]; [|done].
      by destruct (get body "error").
    + by intros ->.
Qed.

Lemma createEncryptedAccount_status_witness :
  (status response_db_down <> 201%Z /\ status response_db_down <> 409%Z) /\
  run (fun _ => Ok response_db_down) (createEncryptedAccount client_token sample_account)
  = Raise (Error "db down").
Proof.
  assert (H201 : status response_db_down <> 201%Z) by (simpl; lia).
  assert (H409 : status response_db_down <> 409%Z) by (simpl; lia).
  split; [by split|].
  refine (proj1 (proj2 (proj2 (proj2 (createEncryptedAccount_status
            client_token sample_account response_db_down) H201 H409))) _ _ _ _);
    reflexivity.
Defined.

(** ** The JSON-RPC URL *)

(** C6. [getRpcUrl] is a function of the configuration alone and
    returns [baseUrl ++ "/ethereum/" ++ name ++ "/jsonrpc"] for the name
    of the configured network; with the base URL ["https://x"] on mainnet
    that is ["https://x/ethereum/mainnet/jsonrpc"]. *)
Theorem getRpcUrl_format (o : RocksideApiOpts) (this : RocksideApi) :
  constructor o = Ok this ->
  getRpcUrl this = baseUrl o ++ "/ethereum/" ++ network_name (network o) ++ "/jsonrpc" /\
  (baseUrl o = "https://x" -> network o = mainnet ->
   getRpcUrl this = "https://x/ethereum/mainnet/jsonrpc") /\
  (forall other : RocksideApi, opts other = opts this -> getRpcUrl other = getRpcUrl this).
Proof.
  intros Hnew. rewrite (constructor_opts o this Hnew).
  unfold getRpcUrl. simpl. repeat split.
  - by intros -> ->.
  - by intros other ->.
Qed.

Lemma getRpcUrl_format_witness :
  constructor opts_apikey = Ok client_apikey /\
  getRpcUrl client_apikey = "https://x/ethereum/mainnet/jsonrpc".
Proof.
  split; [reflexivity|].
  apply (proj1 (proj2 (getRpcUrl_format opts_apikey client_apikey eq_refl)));
    reflexivity.
Defined.

(** ** Encrypted wallets *)



(** * Further properties *)

(** ** Decoding *)

Section Decoding.

Lemma decode_pairs_length (s : string) : length (decode_pairs s) = (len s / 2)%nat.
Proof.
  assert (H : forall n s, len s <= n -> length (decode_pairs s) = (len s / 2)%nat).
  { clear s. induction n as [|n IH]; intros s Hn.
    - destruct s; [done | simpl in Hn; lia].
    - destruct s as [|a [|b rest]]; [done | done |].
      simpl in Hn. simpl decode_pairs. simpl length.
      rewrite IH by (unfold len in *; lia).
      change (len (String a (String b rest))) with (2 + len rest)%nat.
      replace (2 + len rest)%nat with (len rest + 1 * 2)%nat by lia.
      rewrite Nat.div_add by lia. lia. }
  by apply (H (len s)).
Qed.

Lemma sdrop_len (s : string) (n : nat) : len (sdrop n s) = (len s - n)%nat.
Proof.
  revert s. induction n as [|n IH]; intros s; simpl; [lia|].
  destruct s as [|c s]; [done|]. apply IH.
Qed.

Lemma sdrop_all (s : string) (n : nat) : len s <= n -> sdrop n s = EmptyString.
Proof.
  revert s. induction n as [|n IH]; intros s Hn.
  - destruct s; [done | simpl in Hn; lia].
  - destruct s as [|c s]; [done|]. simpl. apply IH. simpl in Hn. unfold len in *. lia.
Qed.

Lemma sdrop_S (s : string) (n : nat) : sdrop (S n) s = sdrop 1 (sdrop n s).
Proof. replace (S n) with (n + 1)%nat by lia. apply sdrop_add. Qed.

Lemma hex2buf_loop_pairs (s : string) (fuel : nat) :
  forall (k : nat) (view : list byte),
    length view = (len s / 2)%nat ->
    len s - 2 * k <= fuel ->
    hex2buf_loop fuel s (2 * k) view = (take k view ++ decode_pairs (sdrop (2 * k) s))%list.
Proof.
  induction fuel as [|fuel IH]; intros k view Hview Hfuel.
  - simpl hex2buf_loop. rewrite sdrop_all by lia. simpl. rewrite app_nil_r.
    symmetry. apply take_ge. rewrite Hview.
    apply Nat.Div0.div_le_upper_bound; lia.
  - rewrite hex2buf_loop_step.
    destruct (Nat.ltb_spec (2 * k) (len s)) as [Hlt|Hge].
    + replace (2 * k / 2)%nat with k
        by (symmetry; rewrite Nat.mul_comm; apply Nat.div_mul; lia).
      rewrite substring_two.
      replace (2 * k + 2)%nat with (2 * S k)%nat by lia.
      rewrite IH; [|by unfold Uint8Array_store; rewrite length_insert|lia].
      replace (2 * S k)%nat with (2 * k + 2)%nat by lia. rewrite sdrop_add.
      pose proof (sdrop_len s (2 * k)) as Hrest.
      destruct (sdrop (2 * k) s) as [|a [|b rest]] eqn:Hs.
      * simpl in Hrest. unfold len in *. lia.
      * (* one character is left: the store falls outside the view *)
        simpl in Hrest. simpl.
        assert (Hk : length view = k).
        { rewrite Hview. symmetry. apply Nat.div_unique with (r := 1%nat); unfold len in *; lia. }
        unfold Uint8Array_store. rewrite list_insert_ge by lia.
        rewrite !take_ge by lia. done.
      * simpl in Hrest. simpl.
        assert (Hk : k < length view).
        { rewrite Hview. apply Nat.div_le_lower_bound; unfold len in *; lia. }
        unfold Uint8Array_store.
        rewrite (take_S_r _ _ (ToUint8 (parseInt (String a (String b EmptyString)) 16))).
        -- rewrite take_insert_ge by lia. by rewrite <- app_assoc.
        -- by apply list_lookup_insert_eq.
    + rewrite sdrop_all by lia. simpl. rewrite app_nil_r.
      symmetry. apply take_ge. rewrite Hview.
      apply Nat.Div0.div_le_upper_bound; lia.
Qed.

Lemma hex2buf_pairs (s : string) : hex2buf s = decode_pairs (sdrop 2 s).
Proof.
  unfold hex2buf, substring_from.
  rewrite (hex2buf_loop_pairs _ _ 0); [done | apply length_replicate | lia].
Qed.

End Decoding.

Section Lowercase.

Lemma is_hex_digit_cases (c : ascii) :
  is_hex_digit c = true ->
  In c (list_ascii_of_string "0123456789abcdefABCDEF").
Proof.
  destruct c as [[] [] [] [] [] [] [] []]; vm_compute; intros H;
    first [discriminate H | tauto].
Qed.

Lemma hex_pair_reencoded (a b : ascii) :
  is_hex_digit a = true -> is_hex_digit b = true ->
  hex_of_byte (ToUint8 (parseInt (String a (String b EmptyString)) 16)) =
  String (to_lower a) (String (to_lower b) EmptyString).
Proof.
  intros Ha Hb.
  apply is_hex_digit_cases in Ha. apply is_hex_digit_cases in Hb.
  simpl in Ha, Hb.
  repeat (destruct Ha as [<- | Ha]; [|]); try contradiction;
    repeat (destruct Hb as [<- | Hb]; [|]); try contradiction; reflexivity.
Qed.

Lemma pairs_reencoded (n : nat) :
  forall s : string,
    len s <= n -> all_chars is_hex_digit s = true -> Nat.even (len s) = true ->
    hexs (decode_pairs s) = lowercase s.
Proof.
  induction n as [|n IH]; intros s Hn Hall Heven.
  - destruct s; [done | simpl in Hn; lia].
  - destruct s as [|a [|b rest]]; [done | discriminate Heven |].
    simpl in Hall. apply andb_true_iff in Hall as [Ha Hall].
    apply andb_true_iff in Hall as [Hb Hall].
    simpl decode_pairs.
    change (hexs (?x :: ?l)) with (hex_of_byte x ++ hexs l).
    rewrite (hex_pair_reencoded a b Ha Hb).
    rewrite IH; [done | simpl in Hn; unfold len in *; lia | done | done].
Qed.

End Lowercase.

(** X1. [hex2buf] drops the first two characters whatever they are and
    reads the rest two characters at a time, each pair on its own: the
    first pair gives the first byte and the rest is decoded as if the pair
    were not there.  A text of at most three characters gives the empty
    buffer, so a last character without a partner is dropped. *)
Theorem hex2buf_by_pairs :
  (forall (p q a b : ascii) (rest : string),
     hex2buf (String p (String q (String a (String b rest)))) =
     ToUint8 (parseInt (String a (String b EmptyString)) 16)
       :: hex2buf (String p (String q rest))) /\
  (forall s : string, len s <= 3 -> hex2buf s = []).
Proof.
  split.
  - intros p q a b rest. by rewrite !hex2buf_pairs.
  - intros s Hs. rewrite hex2buf_pairs.
    destruct s as [|p [|q [|a [|b rest]]]]; try done.
    simpl in Hs. lia.
Qed.

(** X2. The buffer of [hex2buf] has one byte for every two characters
    after the first two, rounded down; it is empty for a text shorter than
    four characters. *)
Theorem hex2buf_length (s : string) :
  length (hex2buf s) = ((len s - 2) / 2)%nat.
Proof. by rewrite hex2buf_pairs, decode_pairs_length, sdrop_len. Qed.

(** X3. The other round trip: for a text of hex digits of even length,
    of either case, encoding the decoding of ["0x"] followed by the text
    gives ["0x"] followed by the text in lower case. *)
Theorem buf2hex_hex2buf (s : string) :
  all_chars is_hex_digit s = true -> Nat.even (len s) = true ->
  buf2hex (hex2buf ("0x" ++ s)) = "0x" ++ lowercase s.
Proof.
  intros Hall Heven. rewrite hex2buf_pairs.
  change (sdrop 2 ("0x" ++ s)) with s.
  unfold buf2hex. fold (hexs (decode_pairs s)).
  by rewrite (pairs_reencoded (len s)).
Qed.

Lemma buf2hex_hex2buf_witness :
  (all_chars is_hex_digit "0AfF" = true /\ Nat.even (len "0AfF") = true) /\
  buf2hex (hex2buf "0x0AfF") = "0x0aff".
Proof.
  split; [by split|].
  exact (buf2hex_hex2buf "0AfF" eq_refl eq_refl).
Defined.

(** X4. [buf2hex] gives different buffers different texts. *)
Theorem buf2hex_injective (b1 b2 : list byte) : buf2hex b1 = buf2hex b2 -> b1 = b2.
Proof.
  intros Heq. rewrite <- (hex2buf_buf2hex b1), <- (hex2buf_buf2hex b2). by rewrite Heq.
Qed.

Lemma buf2hex_injective_witness :
  buf2hex [x01; xff] = buf2hex (hex2buf "0x01FF") /\ [x01; xff] = hex2buf "0x01FF".
Proof.
  split; [reflexivity|].
  exact (buf2hex_injective [x01; xff] (hex2buf "0x01FF") eq_refl).
Defined.

(** ** Requests of a call *)

Section Sending.

Context {A : Type}.
Variables (net : Network) (this : RocksideApi) (route method : string) (body : Value).
Variable k : Response -> Async A.

Let request (b : option string) : Request :=
  {| req_url := baseUrl (opts this) ++ route; req_method := method;
     req_body := b; req_headers := headers this |}.

Lemma send_bind_cases :
  send this route method body ≫= k =
  match serialized body with
  | Ok b => Fetch (request b) k
  | Raise e => Throw e
  end.
Proof.
  unfold send, serialized.
  destruct (if ToBoolean body then JSON_stringify body else Ok None); reflexivity.
Qed.

Lemma run_send_bind :
  run net (send this route method body ≫= k) =
  match serialized body with
  | Ok b =>
      match net (request b) with
      | Ok resp => run net (k resp)
      | Raise e => Raise e
      end
  | Raise e => Raise e
  end.
Proof. rewrite send_bind_cases. by destruct (serialized body). Qed.

Hypothesis k_silent : forall resp, sends (fun _ => False) (k resp).

Lemma single_fetch_send : single_fetch (send this route method body ≫= k).
Proof. rewrite send_bind_cases. by destruct (serialized body). Qed.

Lemma sent_send_bind :
  sent net (send this route method body ≫= k) =
  match serialized body with
  | Ok b => [request b]
  | Raise _ => []
  end.
Proof.
  rewrite send_bind_cases. destruct (serialized body) as [b|e]; [|done].
  simpl. destruct (net _) as [resp|]; [|done].
  f_equal. apply sent_silent, k_silent.
Qed.

Lemma sends_send_bind (P : Request -> Prop) :
  (forall b, serialized body = Ok b -> P (request b)) ->
  sends P (send this route method body ≫= k).
Proof.
  intros HP. rewrite send_bind_cases.
  destruct (serialized body) as [b|e]; [|done].
  split; [by apply HP|]. intros resp.
  eapply sends_impl; [apply k_silent | done].
Qed.

End Sending.

Ltac unfold_methods :=
  unfold getIdentities, createIdentity, getEOAs, createEOA, signMessageWithEOA,
    sendTransaction, createEncryptedAccount, connectEncryptedAccount,
    createEncryptedWallet, getEncryptedWallets, deployIdentityContract,
    getRelayParams, relayTransaction, getTransaction; cbv zeta.

Lemma single_fetch_invoke (Number_of : Value -> Value) (this : RocksideApi) {A : Type}
    (c : Call A) :
  single_fetch (invoke Number_of this c).
Proof.
  destruct c; simpl invoke; unfold_methods;
    apply single_fetch_send; intros resp; repeat sends_step.
Qed.

Lemma single_fetch_sent {A : Type} (net : Network) (m : Async A) :
  single_fetch m -> length (sent net m) <= 1.
Proof.
  destruct m as [a|e|req k]; simpl; [lia | lia |]. intros Hk.
  destruct (net req) as [resp|]; [|simpl; lia].
  rewrite (sent_silent net (k resp)) by apply Hk. simpl. lia.
Qed.

Lemma sent_once (Number_of : Value -> Value) (this : RocksideApi) {A : Type}
    (c : Call A) (net : Network) :
  is_sendTransaction c = false -> length (sent net (invoke Number_of this c)) = 1.
Proof.
  destruct c; simpl is_sendTransaction; intros Hc; try discriminate Hc;
    simpl invoke; unfold_methods;
    (rewrite sent_send_bind by (intros resp; repeat sends_step)); reflexivity.
Qed.

(** X5. Whatever the network answers, a call of a method sends at most
    one request: nothing is retried and nothing is fetched while the
    response is decoded.  Every method but [sendTransaction] (whose body
    is the caller's and may fail to serialize) sends exactly one. *)
Theorem one_request_per_call (Number_of : Value -> Value) (this : RocksideApi)
    {A : Type} (c : Call A) (net : Network) :
  length (sent net (invoke Number_of this c)) <= 1 /\
  (is_sendTransaction c = false -> length (sent net (invoke Number_of this c)) = 1).
Proof.
  split; [apply single_fetch_sent, single_fetch_invoke | apply sent_once].
Qed.

Lemma one_request_per_call_witness :
  is_sendTransaction Call_createEOA = false /\
  length (sent offline (invoke (fun v => v) client_apikey Call_createEOA)) = 1.
Proof.
  split; [reflexivity|].
  exact (proj2 (one_request_per_call (fun v => v) client_apikey Call_createEOA offline)
           eq_refl).
Defined.

(** X6. When [fetch] rejects, the call of any method with a body of its
    own throws that very rejection, after a single request. *)
Theorem transport_failure_propagates (Number_of : Value -> Value) (this : RocksideApi)
    {A : Type} (c : Call A) (net : Network) (e : Exception) :
  (forall req, net req = Raise e) ->
  is_sendTransaction c = false ->
  run net (invoke Number_of this c) = Raise e /\
  length (sent net (invoke Number_of this c)) = 1.
Proof.
  intros Hnet Hc. pose proof (sent_once Number_of this c net Hc) as Hsent.
  split; [|done].
  destruct (invoke Number_of this c) as [a|x|req k]; simpl in *; [lia | lia |].
  by rewrite Hnet.
Qed.

Lemma transport_failure_propagates_witness :
  ((forall req, offline req = Raise (NetworkError "offline")) /\
   is_sendTransaction (Call_getEncryptedWallets "u" [x01]) = false) /\
  run offline (invoke (fun v => v) client_token (Call_getEncryptedWallets "u" [x01]))
  = Raise (NetworkError "offline").
Proof.
  assert (Hnet : forall req, offline req = Raise (NetworkError "offline")) by done.
  split; [by split|].
  exact (proj1 (transport_failure_propagates (fun v => v) client_token
                  (Call_getEncryptedWallets "u" [x01]) offline _ Hnet eq_refl)).
Defined.


(** X7. Every request of every method is a GET, a POST or a PUT; a GET
    never has a body, and for the methods that build their own body a
    request without a body is a GET. *)
Theorem get_requests_have_no_body (Number_of : Value -> Value) (this : RocksideApi)
    {A : Type} (c : Call A) :
  sends (fun req =>
           In (req_method req) ["GET"; "POST"; "PUT"] /\
           (req_method req = "GET" -> req_body req = None) /\
           (is_sendTransaction c = false -> req_body req = None ->
            req_method req = "GET"))
    (invoke Number_of this c).
Proof.
  destruct c; simpl invoke; unfold_methods;
    (apply sends_send_bind; [intros resp; repeat sends_step|]);
    intros b Hb; cbn [req_method req_body is_sendTransaction];
    (split; [simpl; tauto|]); (split; [try done|]);
    try (intros _; injection Hb as <-; done);
    try discriminate.
Qed.

(** ** Statuses *)

Lemma server_error_raises {A : Type} (resp : Response) :
  exists e, server_error (A:=A) resp = Raise e.
Proof.
  unfold server_error. destruct (json resp) as [body|e]; [|by eexists].
  destruct (get body "error"); by eexists.
Qed.

Lemma run_server_error {A : Type} (net : Network) (resp : Response) :
  run net (throw_await (A:=A) (extractError resp)) = server_error resp.
Proof. apply run_extractError. Qed.

Lemma not_expected_1 (z a : Z) : ~ In z [a] -> (z =? a)%Z = false.
Proof. intros H. apply Z.eqb_neq. intros ->. apply H. by left. Qed.

Lemma not_expected_2 (z a b : Z) :
  ~ In z [a; b] -> (z =? a)%Z = false /\ (z =? b)%Z = false.
Proof.
  intros H. split; apply Z.eqb_neq; intros ->; apply H; simpl; tauto.
Qed.

(** X8. On a status that the method does not expect (other than 200, or
    201 for the three creating methods, or 201 and 409 for
    [createEncryptedAccount]) no method returns a value.  The methods that
    build their own body throw what [extractError] makes of the response:
    for a body that is a JSON object, [new Error] of its [error] member,
    with an empty message when there is none. *)
Theorem unexpected_status_throws (Number_of : Value -> Value) (this : RocksideApi)
    {A : Type} (c : Call A) (resp : Response) :
  ~ In (status resp) (expected c) ->
  let outcome := run (fun _ => Ok resp) (invoke Number_of this c) in
  (forall a, outcome <> Ok a) /\
  (is_sendTransaction c = false -> outcome = server_error resp) /\
  (forall props, json resp = Ok (Obj props) -> is_sendTransaction c = false ->
     outcome = Raise (Error_of (own_property props "error"))).
Proof.
  intros Hstatus. cbv zeta.
  assert (Hrun : run (fun _ => Ok resp) (invoke Number_of this c) = server_error resp \/
                 (is_sendTransaction c = true /\
                  exists e, run (fun _ => Ok resp) (invoke Number_of this c) = Raise e)).
  { destruct c; simpl in Hstatus; simpl invoke; unfold_methods;
      rewrite run_send_bind;
      try (apply not_expected_2 in Hstatus as [H1 H2]; rewrite H1, H2);
      try (apply not_expected_1 in Hstatus; rewrite Hstatus);
      try (left; apply run_server_error).
    destruct (serialized tx) as [b|e].
    - left. apply run_server_error.
    - right. split; [done | by eexists]. }
  split; [|split].
  - intros a. destruct Hrun as [-> | [_ [e ->]]]; [|done].
    destruct (server_error_raises (A:=A) resp) as [e ->]. done.
  - intros Hc. destruct Hrun as [-> | [Hc' _]]; [done | congruence].
  - intros props Hjson Hc. destruct Hrun as [-> | [Hc' _]]; [|congruence].
    unfold server_error. by rewrite Hjson.
Qed.

Lemma unexpected_status_throws_witness :
  ~ In (status response_db_down) (expected (Call_createEncryptedWallet sample_account sample_wallet)) /\
  run (fun _ => Ok response_db_down)
      (invoke (fun v => v) client_token
         (Call_createEncryptedWallet sample_account sample_wallet))
  = Raise (Error "db down").
Proof.
  assert (H : ~ In (status response_db_down)
                (expected (Call_createEncryptedWallet sample_account sample_wallet))).
  { simpl. intros [H|[]]. discriminate H. }
  split; [exact H|].
  exact (proj1 (proj2 (unexpected_status_throws (fun v => v) client_token
           (Call_createEncryptedWallet sample_account sample_wallet)
           response_db_down H)) eq_refl).
Defined.

(** ** Decoding responses *)

(** X9. On the status 200, [getIdentities], [getEOAs] and
    [getTransaction] give back the outcome of [resp.json()] as it is: the
    parsed value, whatever its shape, or the failure to parse. *)
Theorem raw_json_is_returned (this : RocksideApi) (txHashOrTrackingId : string)
    (resp : Response) :
  status resp = 200%Z ->
  let net : Network := fun _ => Ok resp in
  run net (getIdentities this) = json resp /\
  run net (getEOAs this) = json resp /\
  run net (getTransaction this txHashOrTrackingId) = json resp.
Proof.
  intros Hstatus. cbv zeta. unfold_methods. rewrite !run_send_bind. simpl.
  rewrite Hstatus. simpl. by destruct (json resp).
Qed.

Lemma raw_json_is_returned_witness :
  status response_identities = 200%Z /\
  run (fun _ => Ok response_identities) (getIdentities client_apikey)
  = Ok (Arr [Str "0xabc"; Str "0xdef"]).
Proof.
  split; [reflexivity|].
  exact (proj1 (raw_json_is_returned client_apikey "id" response_identities eq_refl)).
Defined.

(** X10. On the status 200 and an object whose members
    [encrypted_encryption_key] and [encryption_key_iv] are the [buf2hex]
    texts of two buffers, [connectEncryptedAccount] returns these two
    buffers. *)
Theorem connectEncryptedAccount_decodes (this : RocksideApi) (username : string)
    (passwordHash key iv : list byte) (props : list (string * Value)) (resp : Response) :
  status resp = 200%Z ->
  json resp = Ok (Obj props) ->
  own_property props "encrypted_encryption_key" = Str (buf2hex key) ->
  own_property props "encryption_key_iv" = Str (buf2hex iv) ->
  run (fun _ => Ok resp) (connectEncryptedAccount this username passwordHash)
  = Ok {| key_data := key; key_iv := iv |}.
Proof.
  intros Hstatus Hjson Hkey Hiv. unfold_methods. rewrite run_send_bind. simpl.
  rewrite Hstatus, Hjson. simpl. rewrite Hkey, Hiv. simpl.
  by rewrite !hex2buf_buf2hex.
Qed.

Lemma connectEncryptedAccount_decodes_witness :
  (status response_key = 200%Z /\
   json response_key =
     Ok (Obj [("encrypted_encryption_key", Str "0x03");
              ("encryption_key_iv", Str "0x04")])) /\
  run (fun _ => Ok response_key) (connectEncryptedAccount client_token "u" [x01])
  = Ok {| key_data := [x03]; key_iv := [x04] |}.
Proof.
  split; [by split|].
  exact (connectEncryptedAccount_decodes client_token "u" [x01] [x03] [x04] _
           response_key eq_refl eq_refl eq_refl eq_refl).
Defined.



Lemma decode_wallet_record (w : EncryptedWallet) : decode_wallet (wallet_record w) = Ok w.
Proof.
  unfold decode_wallet, wallet_record. simpl. rewrite !hex2buf_buf2hex. by destruct w.
Qed.

Lemma mapM_cons {A : Type} (f : Value -> Result A) (x : Value) (l : list Value) :
  mapM f (x :: l) = y ← f x; ys ← mapM f l; Ok (y :: ys).
Proof. reflexivity. Qed.

Lemma mapM_decode_records (ws : list EncryptedWallet) :
  mapM decode_wallet (map wallet_record ws) = Ok ws.
Proof.
  induction ws as [|w ws IH]; [done|].
  change (map wallet_record (w :: ws)) with (wallet_record w :: map wallet_record ws).
  by rewrite mapM_cons, decode_wallet_record, IH.
Qed.

(** X12. On the status 200 and an array of records that carry the
    mnemonic and its IV as [encrypted_mnemonic] and [mnemonic_iv],
    [getEncryptedWallets] returns the wallets, in order. *)
Theorem getEncryptedWallets_decodes (this : RocksideApi) (username : string)
    (passwordHash : list byte) (wallets : list EncryptedWallet) (resp : Response) :
  status resp = 200%Z ->
  json resp = Ok (Arr (map wallet_record wallets)) ->
  run (fun _ => Ok resp) (getEncryptedWallets this username passwordHash) = Ok wallets.
Proof.
  intros Hstatus Hjson. unfold_methods. rewrite run_send_bind. simpl.
  rewrite Hstatus, Hjson. simpl. by rewrite mapM_decode_records.
Qed.

Lemma getEncryptedWallets_decodes_witness :
  (status response_wallets = 200%Z /\
   json response_wallets = Ok (Arr (map wallet_record [sample_wallet]))) /\
  run (fun _ => Ok response_wallets) (getEncryptedWallets client_token "u" [x01])
  = Ok [sample_wallet].
Proof.
  split; [by split|].
  exact (getEncryptedWallets_decodes client_token "u" [x01] [sample_wallet]
           response_wallets eq_refl eq_refl).
Defined.

Lemma get_error (v : Value) (key : string) (e : Exception) :
  get v key = Raise e -> e = TypeError.
Proof. destruct v; simpl; congruence. Qed.

Lemma hex2buf_of_error (v : Value) (e : Exception) :
  hex2buf_of v = Raise e -> e = TypeError.
Proof. destruct v; simpl; congruence. Qed.

Lemma decode_wallet_error (v : Value) (e : Exception) :
  decode_wallet v = Raise e -> e = TypeError.
Proof.
  unfold decode_wallet.
  destruct (get v "encrypted_mnemonic") as [m|x] eqn:Hm; simpl;
    [|intros [= <-]; by apply get_error in Hm].
  destruct (hex2buf_of m) as [bm|x] eqn:Hbm; simpl;
    [|intros [= <-]; by apply hex2buf_of_error in Hbm].
  destruct (get v "mnemonic_iv") as [i|x] eqn:Hi; simpl;
    [|intros [= <-]; by apply get_error in Hi].
  destruct (hex2buf_of i) as [bi|x] eqn:Hbi; simpl; [done|].
  intros [= <-]. by apply hex2buf_of_error in Hbi.
Qed.

Lemma mapM_decode_spec (elems : list Value) :
  (forall ws, mapM decode_wallet elems = Ok ws <->
              Forall2 (fun e w => decode_wallet e = Ok w) elems ws) /\
  (forall e, mapM decode_wallet elems = Raise e -> e = TypeError).
Proof.
  induction elems as [|x elems [IHok IHerr]].
  - split.
    + intros ws. split.
      * intros [= <-]. constructor.
      * intros H. by inversion H.
    + intros e H. discriminate H.
  - split.
    + intros ws. rewrite mapM_cons. split.
      * destruct (decode_wallet x) as [w|] eqn:Hx; simpl; [|done].
        destruct (mapM decode_wallet elems) as [ws'|] eqn:Hm; simpl; [|done].
        intros [= <-]. constructor; [done|]. by apply IHok.
      * intros H. inversion H as [|? w ? ws' Hx Hrest]; subst.
        rewrite Hx. simpl. apply IHok in Hrest. by rewrite Hrest.
    + intros e. rewrite mapM_cons.
      destruct (decode_wallet x) as [w|x'] eqn:Hx; simpl.
      * destruct (mapM decode_wallet elems) as [ws'|x'] eqn:Hm; simpl; [done|].
        intros [= <-]. by apply IHerr.
      * intros [= <-]. by apply decode_wallet_error in Hx.
Qed.

(** X13. On the status 200 [getEncryptedWallets] returns a list exactly
    when the body is an array and every element decodes, one wallet per
    element in order; whenever it throws after parsing, it throws a
    [TypeError] (the body is no array, or an element lacks a member or has
    one that is no string), and no part of the list is returned. *)
Theorem getEncryptedWallets_all_or_nothing (this : RocksideApi) (username : string)
    (passwordHash : list byte) (body : Value) (resp : Response) :
  status resp = 200%Z ->
  json resp = Ok body ->
  let outcome :=
    run (fun _ => Ok resp) (getEncryptedWallets this username passwordHash) in
  (forall wallets,
     outcome = Ok wallets <->
     exists elems, body = Arr elems /\
                   Forall2 (fun e w => decode_wallet e = Ok w) elems wallets) /\
  (forall e, outcome = Raise e -> e = TypeError).
Proof.
  intros Hstatus Hjson. cbv zeta. unfold_methods. rewrite run_send_bind. simpl.
  rewrite Hstatus, Hjson. simpl.
  destruct body as [| | | | | |elems|]; simpl;
    try (split; [intros ws; split; [done | by intros (? & [=] & _)] | by intros e [= <-]]).
  destruct (mapM_decode_spec elems) as [Hok Herr].
  split.
  - intros ws. split.
    + destruct (mapM decode_wallet elems) as [ws'|] eqn:Hm; simpl; [|done].
      intros [= <-]. exists elems. split; [done|]. by apply Hok.
    + intros (elems' & [= <-] & Hall). apply Hok in Hall. by rewrite Hall.
  - intros e. destruct (mapM decode_wallet elems) as [ws'|x] eqn:Hm; simpl; [done|].
    intros [= <-]. by apply Herr.
Qed.

Lemma getEncryptedWallets_all_or_nothing_witness :
  (status response_stored_wallet = 200%Z /\
   json response_stored_wallet =
     Ok (Arr [createEncryptedWallet_body sample_account sample_wallet])) /\
  forall wallets,
    run (fun _ => Ok response_stored_wallet)
        (getEncryptedWallets client_token "u" [x01]) = Ok wallets ->
    exists elems,
      Arr [createEncryptedWallet_body sample_account sample_wallet] = Arr elems /\
      Forall2 (fun e w => decode_wallet e = Ok w) elems wallets.
Proof.
  split; [by split|]. intros wallets.
  exact (proj1 (proj1 (getEncryptedWallets_all_or_nothing client_token "u" [x01] _
                         response_stored_wallet eq_refl eq_refl) wallets)).
Defined.

(** ** Serialization, amounts and the token *)

Section Serialization.

Lemma JSON_stringify_Arr (elems : list Value) :
  JSON_stringify (Arr elems) =
  match items_of elems with
  | Raise x => Raise x
  | Ok strs => Ok (Some ("[" ++ join_with "," strs ++ "]"))
  end.
Proof. reflexivity. Qed.

Lemma JSON_stringify_members (props : list (string * Value)) :
  JSON_stringify (Obj props) =
  match members_of props with
  | Raise x => Raise x
  | Ok strs => Ok (Some ("{" ++ join_with "," strs ++ "}"))
  end.
Proof. reflexivity. Qed.

Lemma JSON_stringify_error (v : Value) :
  forall e, JSON_stringify v = Raise e -> e = TypeError.
Proof.
  induction v as [| | [] | | | |elems IH|props IH] using Value_nested_ind;
    intros e; try discriminate; try (by intros [= <-]).
  - rewrite JSON_stringify_Arr.
    assert (Hitems : forall x, items_of elems = Raise x -> x = TypeError).
    { induction IH as [|v rest Hv _ IHrest]; [discriminate|]. intros x. simpl.
      destruct (JSON_stringify v) as [o|y] eqn:Hs; [|intros [= <-]; by apply Hv].
      destruct (items_of rest) as [strs|y]; [discriminate|].
      intros [= <-]. by apply IHrest. }
    destruct (items_of elems) as [strs|y]; [discriminate|].
    intros [= <-]. by apply Hitems.
  - rewrite JSON_stringify_members.
    assert (Hmembers : forall x, members_of props = Raise x -> x = TypeError).
    { induction IH as [|[k v] rest Hv _ IHrest]; [discriminate|]. intros x. simpl.
      destruct (JSON_stringify v) as [o|y] eqn:Hs; [|intros [= <-]; by apply Hv].
      destruct (members_of rest) as [strs|y]; [discriminate|].
      intros [= <-]. by apply IHrest. }
    destruct (members_of props) as [strs|y]; [discriminate|].
    intros [= <-]. by apply Hmembers.
Qed.

Lemma members_of_BigInt (props : list (string * Value)) (k : string) (z : Z) :
  In (k, BigInt z) props -> members_of props = Raise TypeError.
Proof.
  induction props as [|[k' v] rest IH]; [done|].
  intros [[= -> ->] | Hin]; [reflexivity|].
  simpl. destruct (JSON_stringify v) as [o|x] eqn:Hs.
  - by rewrite (IH Hin).
  - by rewrite (JSON_stringify_error v x Hs).
Qed.

End Serialization.

(** X14. [TransactionOpts] lets [value], [gas] and [gasPrice] be
    BigInts, and [JSON.stringify] refuses a BigInt: a transaction object
    with a BigInt member makes [sendTransaction] throw a [TypeError]
    before any request is sent. *)
Theorem sendTransaction_BigInt (this : RocksideApi) (props : list (string * Value))
    (k : string) (z : Z) (net : Network) :
  In (k, BigInt z) props ->
  run net (sendTransaction this (Obj props)) = Raise TypeError /\
  sent net (sendTransaction this (Obj props)) = [].
Proof.
  intros Hin. unfold_methods.
  rewrite run_send_bind, sent_send_bind by (intros resp; repeat sends_step).
  unfold serialized. change (ToBoolean (Obj props)) with true. cbv iota.
  by rewrite JSON_stringify_members, (members_of_BigInt props k z Hin).
Qed.

Lemma sendTransaction_BigInt_witness :
  In ("value", BigInt 1) sample_bigint_tx /\
  run (fun _ => Ok response_db_down) (sendTransaction client_apikey (Obj sample_bigint_tx))
  = Raise TypeError.
Proof.
  assert (Hin : In ("value", BigInt 1) sample_bigint_tx) by (simpl; tauto).
  split; [exact Hin|].
  exact (proj1 (sendTransaction_BigInt client_apikey sample_bigint_tx "value" 1
                  (fun _ => Ok response_db_down) Hin)).
Defined.

(** X15. For a negative amount the one request of [relayTransaction]
    carries the value ["0x-"] followed by the hex digits of the magnitude
    (the text that is read as the magnitude without the sign), which
    [parseInt(_, 16)] reads as NaN. *)
Theorem relayTransaction_negative_amount (this : RocksideApi) (identity : string)
    (tx : ExecuteTransaction) :
  (tx_value tx < 0)%Z ->
  let value := "0x-" ++ Number_toString (- tx_value tx) 16 in
  get (relayTransaction_body tx) "value" = Ok (Str value) /\
  parseInt value 16 = None /\
  parseInt ("0x" ++ Number_toString (- tx_value tx) 16) 16 = Some (- tx_value tx)%Z /\
  (forall net : Network,
     sent net (relayTransaction this identity tx) =
     [ {| req_url := baseUrl (opts this) ++ "/ethereum/"
                     ++ network_name (network (opts this))
                     ++ "/contracts/relayableidentity/" ++ identity ++ "/relayExecute";
          req_method := "POST";
          req_body := Some (relayTransaction_text tx value (buf2hex (tx_data tx)));
          req_headers := headers this |} ]).
Proof.
  intros Hneg. cbv zeta.
  assert (Hvalue : "0x" ++ Number_toString (tx_value tx) 16
                   = "0x-" ++ Number_toString (- tx_value tx) 16).
  { unfold Number_toString.
    destruct (Z.ltb_spec (tx_value tx) 0); [|lia].
    destruct (Z.ltb_spec (- tx_value tx) 0); [lia|].
    destruct (Z.eqb_spec (- tx_value tx) 0); [lia|]. reflexivity. }
  split; [|split; [reflexivity|split]].
  - unfold relayTransaction_body. simpl. by rewrite Hvalue.
  - apply parseInt_toString. lia.
  - intros net. unfold relayTransaction. cbv zeta.
    apply sent_send; [reflexivity | | intros resp; repeat sends_step].
    rewrite relayTransaction_body_json. unfold relayTransaction_json.
    by rewrite Hvalue.
Qed.

Lemma relayTransaction_negative_amount_witness :
  (tx_value sample_negative_tx < 0)%Z /\
  get (relayTransaction_body sample_negative_tx) "value" = Ok (Str "0x-ff") /\
  parseInt "0x-ff" 16 = None /\
  sent offline (relayTransaction client_apikey "id" sample_negative_tx) =
  [ {| req_url := "https://x/ethereum/mainnet/contracts/relayableidentity/id/relayExecute";
       req_method := "POST";
       req_body := Some (json_text
         "{'relayer':'r','from':'a','to':'b','value':'0x-ff','data':'0x','signature':'s'}");
       req_headers := {[ "apikey" := "k" ]} |} ].
Proof.
  assert (Hneg : (tx_value sample_negative_tx < 0)%Z) by (simpl; lia).
  split; [exact Hneg|].
  pose proof (relayTransaction_negative_amount client_apikey "id" sample_negative_tx Hneg)
    as (Hget & Hnan & _ & Hsent).
  split; [exact Hget|]. split; [exact Hnan | exact (Hsent offline)].
Defined.

(** X16. After a successful construction [getToken] returns
    [opts.token].  When the client authenticates with a token, that is the
    token of its [Authorization] header; when it authenticates with an API
    key, [getToken] gives [undefined] or the empty string and there is no
    [Authorization] header. *)
Theorem getToken_matches_headers (o : RocksideApiOpts) (this : RocksideApi) :
  constructor o = Ok this ->
  getToken this = token o /\
  (absent_or_empty (apikey o) ->
   exists t, getToken this = Some t /\ t <> EmptyString /\
             headers this !! "Authorization" = Some ("Bearer " ++ t)) /\
  (nonempty (apikey o) ->
   absent_or_empty (getToken this) /\ headers this !! "Authorization" = None).
Proof.
  intros Hnew.
  pose proof (constructor_one_credential o this Hnew) as Hcases.
  rewrite (constructor_opts o this Hnew). unfold getToken. simpl.
  split; [done|]. split.
  - intros Hkey. destruct Hcases as [[Hk _] | [_ (t & Ht & Hne)]].
    + pose proof (ToBoolean_nonempty _ Hk) as Htrue.
      rewrite (ToBoolean_absent_or_empty _ Hkey) in Htrue. discriminate.
    + exists t. split; [done|]. split; [done|]. unfold generateHeaders.
      rewrite (ToBoolean_absent_or_empty _ Hkey), Ht. apply lookup_singleton_eq.
  - intros Hkey. destruct Hcases as [[_ Ht] | [Hk _]].
    + split; [done|]. unfold generateHeaders.
      rewrite (ToBoolean_nonempty _ Hkey). by apply lookup_singleton_ne.
    + pose proof (ToBoolean_nonempty _ Hkey) as Htrue.
      rewrite (ToBoolean_absent_or_empty _ Hk) in Htrue. discriminate.
Qed.

Lemma getToken_matches_headers_witness :
  constructor opts_token = Ok client_token /\
  getToken client_token = Some "t".
Proof.
  split; [reflexivity|].
  exact (proj1 (getToken_matches_headers opts_token client_token eq_refl)).
Defined.

(** X17. [createEncryptedWallet] returns exactly on the status 201 and
    does not read the body then; the status 409, which
    [createEncryptedAccount] accepts, makes it throw. *)
Theorem createEncryptedWallet_status (this : RocksideApi) (account : EncryptedAccount)
    (wallet : EncryptedWallet) (resp : Response) :
  let outcome := run (fun _ => Ok resp) (createEncryptedWallet this account wallet) in
  (outcome = Ok tt <-> status resp = 201%Z) /\
  (status resp = 409%Z -> outcome = server_error resp).
Proof.
  cbv zeta. unfold_methods. rewrite run_send_bind. simpl.
  destruct (Z.eqb_spec (status resp) 201) as [Heq|Hne]; simpl.
  - split; [done|]. intros H409. rewrite H409 in Heq. discriminate.
  - rewrite run_server_error. split; [|done].
    destruct (server_error_raises (A:=unit) resp) as [e ->]. done.
Qed.

(** X18. On the status 201 [createIdentity] copies [address] and
    renames [transaction_hash] to [transactionHash].  It does not check
    the response: a member that is missing comes out as [undefined], a
    body that is no object gives two [undefined] members, and only the
    body [null] throws. *)
Theorem createIdentity_result (this : RocksideApi) (forwarder account : string)
    (body : Value) (resp : Response) :
  status resp = 201%Z ->
  json resp = Ok body ->
  run (fun _ => Ok resp) (createIdentity this forwarder account) =
  match body with
  | Undefined | Null => Raise TypeError
  | Obj props =>
      Ok (Obj [("address", own_property props "address");
               ("transactionHash", own_property props "transaction_hash")])
  | _ => Ok (Obj [("address", Undefined); ("transactionHash", Undefined)])
  end.
Proof.
  intros Hstatus Hjson. unfold_methods. rewrite run_send_bind. simpl.
  rewrite Hstatus, Hjson. by destruct body.
Qed.

Lemma createIdentity_result_witness :
  (status response_created = 201%Z /\
   json response_created =
     Ok (Obj [("address", Str "0xabc"); ("transaction_hash", Str "0xdef")])) /\
  run (fun _ => Ok response_created) (createIdentity client_apikey "f" "a")
  = Ok (Obj [("address", Str "0xabc"); ("transactionHash", Str "0xdef")]).
Proof.
  split; [by split|].
  exact (createIdentity_result client_apikey "f" "a" _ response_created eq_refl eq_refl).
Defined.
